(** * Transcript reformatter: line wrapping and paragraph classification

    A shallow embedding of [main.py].  Python strings are lists of
    characters; a character is an 8-bit code point ([ascii]), classified
    the way Python classifies the code points 0..255.  Integers are [Z],
    lengths are [Z.of_nat (length _)].

    The output document is the list of the rows added to its table; fonts,
    sizes, margins and paragraph spacing stay with the document library, and
    logging has no part in the model.  The separator length, which the
    program derives from the page geometry in floating point, is a
    parameter of the paragraph loop.  The file system and the library calls
    that load and save documents are parameters of [process_docx]. *)

From Stdlib Require Import Ascii String.
From Stdlib Require Import List ZArith Lia Bool Arith.
From Stdlib Require Import DecimalString.
From Stdlib Require DecimalPos DecimalZ.
Import ListNotations.

Local Open Scope Z_scope.
Local Open Scope list_scope.

(** ** Python strings *)

Module PyStr.

Definition str := list ascii.

(** String literals of the source are written [$"..."]. *)
Definition lit (s : string) : str := list_ascii_of_string s.
Notation "$ s" := (lit s%string) (at level 1, format "$ s").

Definition len (s : str) : Z := Z.of_nat (length s).

Definition code (c : ascii) : N := N_of_ascii c.

Definition in_range (lo hi : N) (c : ascii) : bool :=
  ((lo <=? code c) && (code c <=? hi))%N.

(** [str.isspace] on one character: TAB..CR, FS..US, SPACE, NEL, NBSP.
    [str.split()], [str.strip()] and the regular expression class [\s]
    all use this set. *)
Definition isspace (c : ascii) : bool :=
  in_range 9 13 c || in_range 28 32 c || in_range 133 133 c
  || in_range 160 160 c.

(** The class [\d]. *)
Definition isdigit (c : ascii) : bool := in_range 48 57 c.

(** The class [[A-Z]]. *)
Definition isupper_AZ (c : ascii) : bool := in_range 65 90 c.

(** The class [\w]: alphanumeric or underscore. *)
Definition isword (c : ascii) : bool :=
  in_range 48 57 c || in_range 65 90 c || in_range 95 95 c
  || in_range 97 122 c || in_range 170 170 c || in_range 178 179 c
  || in_range 181 181 c || in_range 185 186 c || in_range 188 190 c
  || in_range 192 214 c || in_range 216 246 c || in_range 248 255 c.

Definition space : ascii := " "%char.
Definition colon : ascii := ":"%char.
Definition dash : ascii := "-"%char.

Definition is_char (a c : ascii) : bool := Ascii.eqb a c.

(** [s.lstrip()], [s.rstrip()], [s.strip()] with no argument. *)
Fixpoint lstrip (s : str) : str :=
  match s with
  | c :: s' => if isspace c then lstrip s' else s
  | [] => []
  end.

Definition rstrip (s : str) : str := rev (lstrip (rev s)).

Definition strip (s : str) : str := rstrip (lstrip s).

(** [s.rstrip(':')]: every trailing colon goes. *)
Fixpoint lstrip_char (a : ascii) (s : str) : str :=
  match s with
  | c :: s' => if is_char a c then lstrip_char a s' else s
  | [] => []
  end.

Definition rstrip_char (a : ascii) (s : str) : str :=
  rev (lstrip_char a (rev s)).

(** [s.split()] with no argument: maximal runs of non-whitespace
    characters, in order.  [cur] is the word being read. *)
Fixpoint split_from (cur : str) (s : str) : list str :=
  match s with
  | [] => match cur with [] => [] | _ => [cur] end
  | c :: s' =>
      if isspace c
      then match cur with
           | [] => split_from [] s'
           | _ => cur :: split_from [] s'
           end
      else split_from (cur ++ [c]) s'
  end.

Definition split (s : str) : list str := split_from [] s.

(** [sep.join(ws)]. *)
Fixpoint join (sep : str) (ws : list str) : str :=
  match ws with
  | [] => []
  | [w] => w
  | w :: ws' => w ++ sep ++ join sep ws'
  end.

(** [s.startswith(p)] and [p in s]. *)
Fixpoint startswith (s p : str) {struct p} : bool :=
  match p, s with
  | [], _ => true
  | a :: p', c :: s' => is_char a c && startswith s' p'
  | _ :: _, [] => false
  end.

Fixpoint contains (p s : str) : bool :=
  startswith s p ||
  match s with
  | [] => false
  | _ :: s' => contains p s'
  end.

Definition endswith (s p : str) : bool := startswith (rev s) (rev p).

(** [s.replace(old, new)]: the occurrences of [old] found scanning left
    to right, each search resuming after the previous occurrence.
    [skip] counts the characters of the current occurrence still to be
    passed over. *)
Fixpoint replace_from (old new : str) (skip : nat) (s : str) : str :=
  match s with
  | [] => []
  | c :: s' =>
      match skip with
      | S n => replace_from old new n s'
      | O =>
          if startswith s old
          then new ++ replace_from old new (Nat.pred (length old)) s'
          else c :: replace_from old new 0 s'
      end
  end.

Definition replace (s old new : str) : str :=
  match old with
  | [] => new ++ flat_map (fun c => c :: new) s
  | _ => replace_from old new 0 s
  end.

(** [c * n] for a one-character string [c]: empty when [n <= 0]. *)
Definition times (c : ascii) (n : Z) : str := repeat c (Z.to_nat n).

End PyStr.
Import PyStr.

(** ** [split_text_into_lines] *)

Record wrap_state := WrapState {
  lines : list str;
  current_line : list str;
  current_length : Z
}.

Definition wrap_init : wrap_state := WrapState [] [] 0.

(** The lines list after [if current_line: lines.append(' '.join(current_line))]. *)
Definition flush (ls : list str) (cur : list str) : list str :=
  match cur with
  | [] => ls
  | _ => ls ++ [join [space] cur]
  end.

(** One iteration of [for word in words]. *)
Definition wrap_word (max_length : Z) (st : wrap_state) (word : str)
  : wrap_state :=
  let gap := if 0 <? current_length st then 1 else 0 in
  if current_length st + len word + gap <=? max_length
  then WrapState (lines st) (current_line st ++ [word])
                 (current_length st + (len word + gap))
  else WrapState (flush (lines st) (current_line st)) [word] (len word).

Definition split_text_into_lines (text : str) (max_length : Z) : list str :=
  let st := fold_left (wrap_word max_length) (split text) wrap_init in
  flush (lines st) (current_line st).

(** ** Words, lines and the wrapping invariant *)

Definition spaceless (w : str) : Prop := Forall (fun c => isspace c = false) w.

(** What [split()] returns: non-empty and free of whitespace. *)
Definition is_word (w : str) : Prop := w <> [] /\ spaceless w.

(** The loop invariant of [split_text_into_lines] for the length bound. *)
Record wrap_inv (m : Z) (st : wrap_state) : Prop := WrapInv {
  inv_lines : Forall (fun l => len l <= m) (lines st);
  inv_words : Forall is_word (current_line st);
  inv_length : current_length st = len (join [space] (current_line st));
  inv_bound : current_line st <> [] -> current_length st <= m
}.

(** A wrapped line is a non-empty sequence of words joined by one space. *)
Definition joined_line (l : str) : Prop :=
  exists ws, ws <> [] /\ Forall is_word ws /\ l = join [space] ws.

(** What [[A-Z]+] accepts. *)
Definition capitals (name : str) : Prop :=
  name <> [] /\ Forall (fun c => isupper_AZ c = true) name.

(** ** Regular expressions

    The fragment of Python's [re] syntax the three patterns use, with the
    backtracking matcher's choice order: a greedy quantifier first tries to
    take one more repetition, and alternatives are tried again when the rest
    of the pattern fails. *)

Module Re.

Inductive regex :=
| Eps
| Class (p : ascii -> bool)      (* one character of a class *)
| Cat (r1 r2 : regex)
| Opt (r : regex)                (* r?  and  (?:r)? *)
| Plus (p : ascii -> bool)       (* [class]+ *)
| WordBoundary                   (* \b *)
| Bol.                           (* ^ *)

Declare Scope re_scope.
Delimit Scope re_scope with re.
Bind Scope re_scope with regex.
Infix ";;" := Cat (at level 60, right associativity) : re_scope.

(** [r{0,more}] and [r{lo,lo+more}], greedy. *)
Fixpoint upto (r : regex) (more : nat) : regex :=
  match more with
  | S m => Opt (Cat r (upto r m))
  | O => Eps
  end.

Fixpoint rep (r : regex) (lo more : nat) : regex :=
  match lo with
  | S n => Cat r (rep r n more)
  | O => upto r more
  end.

Definition isword_opt (c : option ascii) : bool :=
  match c with
  | Some c => isword c
  | None => false
  end.

(** [\b] between the character before the position ([None] at the start of
    the string) and the rest of the string. *)
Definition at_boundary (prev : option ascii) (s : str) : bool :=
  xorb (isword_opt prev) (isword_opt (hd_error s)).

Section Matcher.
Context {A : Type}.

(** The matcher threads the character before the current position and the
    unread rest of the string to the continuation [k], which stands for
    the rest of the pattern. *)
Definition cont := option ascii -> str -> option A.

Fixpoint plus_class (p : ascii -> bool) (s : str) (k : cont) : option A :=
  match s with
  | c :: s' =>
      if p c
      then match plus_class p s' k with
           | Some a => Some a
           | None => k (Some c) s'
           end
      else None
  | [] => None
  end.

Fixpoint exec (r : regex) (prev : option ascii) (s : str) (k : cont)
  : option A :=
  match r with
  | Eps => k prev s
  | Class p =>
      match s with
      | c :: s' => if p c then k (Some c) s' else None
      | [] => None
      end
  | Cat r1 r2 => exec r1 prev s (fun prev' s' => exec r2 prev' s' k)
  | Opt r1 =>
      match exec r1 prev s k with
      | Some a => Some a
      | None => k prev s
      end
  | Plus p => plus_class p s k
  | WordBoundary => if at_boundary prev s then k prev s else None
  | Bol => match prev with
           | None => k prev s
           | Some _ => None
           end
  end.
End Matcher.

(** A match attempt at one position yields the matched text, [group(0)]. *)
Definition match_here (r : regex) (prev : option ascii) (s : str)
  : option str :=
  match exec r prev s (fun _ rest => Some rest) with
  | Some rest => Some (firstn (length s - length rest) s)
  | None => None
  end.

(** [pattern.match(s)]: an attempt at position 0 only. *)
Definition re_match (r : regex) (s : str) : option str :=
  match_here r None s.

(** [pattern.search(s)]: the first position, left to right, with a match. *)
Fixpoint search_from (r : regex) (prev : option ascii) (s : str)
  : option str :=
  match match_here r prev s with
  | Some m => Some m
  | None =>
      match s with
      | [] => None
      | c :: s' => search_from r (Some c) s'
      end
  end.

Definition re_search (r : regex) (s : str) : option str :=
  search_from r None s.

End Re.
Import Re.
Local Open Scope re_scope.

Definition digit : regex := Class isdigit.
Definition chr (c : ascii) : regex := Class (is_char c).

(** [r'\b(\d{1,2}:\d{2}(?::\d{2})?)\b'].  The one group spans everything
    but the two zero-width [\b], so [group(1)] and [group(0)] coincide. *)
Definition timecode_regex : regex :=
  WordBoundary ;; rep digit 1 1 ;; chr colon ;; rep digit 2 0
    ;; Opt (chr colon ;; rep digit 2 0) ;; WordBoundary.

Definition segment_marker_pattern : regex := timecode_regex.
Definition timecode_pattern : regex := timecode_regex.

(** [r'^[A-Z]+:?\s']. *)
Definition speaker_pattern : regex :=
  Bol ;; Plus isupper_AZ ;; Opt (chr colon) ;; Class isspace.

(** ** The output table *)

Inductive rgb := RGBColor (r g b : Z).

(** A run of text in a cell; fonts sizes and paragraph spacing are left to
    the document library. *)
Record run := Run {
  run_text : str;
  run_bold : bool;
  run_color : option rgb
}.

(** A table row: either its two cells merged into one full-width cell, or a
    speaker cell and a content cell. *)
Inductive row :=
| Merged (runs : list run)
| Cells (speaker_cell content_cell : list run).

Definition table := list row.

Definition add_row_content (t : table) (text : str)
  (is_separator is_bold : bool) : table :=
  if is_separator
  then t ++ [Merged [Run text is_bold None]]
  else t ++ [Cells [] []].

Definition nonempty (s : str) : bool :=
  match s with
  | [] => false
  | _ :: _ => true
  end.

Definition add_split_content (t : table) (speaker content : str)
  (speaker_color : option rgb) : table :=
  t ++ [Cells (if nonempty speaker then [Run speaker false speaker_color]
               else [])
              (if nonempty content then [Run content false None] else [])].

(** ** Exceptions *)

Inductive exn :=
| FileNotFoundError (msg : str)
| IndexError
| AttributeError
| LibraryError (name : str).   (* any other exception of the document library *)

Definition result (A : Type) : Type := exn + A.
Definition ret {A} (a : A) : result A := inr a.
Definition raise {A} (e : exn) : result A := inl e.
Definition bind {A B} (m : result A) (f : A -> result B) : result B :=
  match m with
  | inl e => inl e
  | inr a => f a
  end.

(** [f"{n:02d}"]: decimal, zero-padded to a width of at least two. *)
Definition format_02d (n : Z) : str :=
  let s := list_ascii_of_string (NilZero.string_of_int (Z.to_int n)) in
  if (length s <? 2)%nat then "0"%char :: s else s.

(** ** The paragraph loop of [process_docx] *)

Record loop_state := LoopState {
  segment_count : Z;
  skip_pages : bool;
  out_table : table
}.

Definition MAX_LINE_LENGTH : Z := 90.
Definition red : option rgb := Some (RGBColor 255 0 0).
Definition dashes : str := $"----------".

(** [segment_marker_pattern.search(text) and "----------" in text]. *)
Definition is_segment_marker (text : str) : bool :=
  match re_search segment_marker_pattern text with
  | Some _ => contains dashes text
  | None => false
  end.

(** Lines 164-167: the leading timecode, when there is one, is replaced by
    the empty string everywhere and the text stripped again. *)
Definition remove_timecode (text : str) : str :=
  match re_match timecode_pattern text with
  | Some timecode => strip (replace text timecode [])
  | None => text
  end.

Section Loop.
(** [separator_length] comes from the page geometry of the library's
    default template through floating-point arithmetic
    ([get_available_width]); the loop only uses it as an integer. *)
Variable separator_length : Z.

(** Lines 147-162. *)
Definition segment_text (timecode : str) (count : Z) : str :=
  let spacing := separator_length - len timecode - 2 + 26 in
  timecode ++ times space spacing ++ [space] ++ format_02d count.

Definition emit_segment_marker (st : loop_state) (timecode : str)
  : loop_state :=
  let count := segment_count st + 1 in
  let t := add_row_content (out_table st) (times dash separator_length)
             true false in
  let t := add_row_content t (segment_text timecode count) true true in
  LoopState count false t.

(** Lines 170-189. *)
Definition emit_speaker (t : table) (text : str) : result table :=
  let words := split text in
  let speaker := match words with
                 | w :: _ => rstrip_char colon w
                 | [] => []
                 end in
  let content := strip (join [space] (tl words)) in
  if nonempty content
  then
    let lines := split_text_into_lines content MAX_LINE_LENGTH in
    match lines with
    | [] => raise IndexError                       (* lines[0] *)
    | first :: rest =>
        ret (fold_left (fun t line => add_split_content t [] line None)
               rest (add_split_content t speaker first red))
    end
  else ret (add_split_content t speaker [] red).

(** Lines 191-194. *)
Definition emit_plain (t : table) (text : str) : table :=
  if nonempty text then add_split_content t [] text None else t.

(** The body of [for para in doc.paragraphs], on [para.text]. *)
Definition process_paragraph (st : loop_state) (para_text : str)
  : result loop_state :=
  let text := strip para_text in
  if skip_pages st && negb (is_segment_marker text)
  then ret st                                      (* continue *)
  else
    if is_segment_marker text
    then
      match re_search segment_marker_pattern text with
      | Some timecode => ret (emit_segment_marker st timecode)
      | None => raise AttributeError              (* None.group(1) *)
      end
    else
      let text := remove_timecode text in
      match re_match speaker_pattern text with
      | Some _ =>
          bind (emit_speaker (out_table st) text) (fun t =>
          ret (LoopState (segment_count st) (skip_pages st) t))
      | None =>
          ret (LoopState (segment_count st) (skip_pages st)
                 (emit_plain (out_table st) text))
      end.

Fixpoint process_paragraphs (st : loop_state) (paras : list str)
  : result loop_state :=
  match paras with
  | [] => ret st
  | p :: paras' =>
      bind (process_paragraph st p) (fun st' =>
      process_paragraphs st' paras')
  end.

Definition loop_init : loop_state := LoopState 0 true [].
End Loop.

(** ** [process_docx]

    The file system and the document library are outside the program: the
    state of the world is an abstract [world], and the three operations the
    program calls on it are parameters. *)

Section ProcessDocx.
Variable world : Type.
(** [os.path.exists(path)]. *)
Variable path_exists : world -> str -> bool.
(** [Document(path).paragraphs], as the list of the paragraphs' texts. *)
Variable Document : world -> str -> result (list str).
(** [out_doc.save(path)] for a document holding the table. *)
Variable save : world -> str -> table -> result unit * world.
Variable separator_length : Z.

Definition not_found_message (input_file : str) : str :=
  $"Input file '" ++ input_file ++ $"' not found.".

(** Line 197. *)
Definition docx_path (output_file : str) : str :=
  if endswith output_file $".docx" then output_file
  else output_file ++ $".docx".

Definition process_docx (w : world) (input_file output_file : str)
  : result str * world :=
  if negb (path_exists w input_file)
  then (raise (FileNotFoundError (not_found_message input_file)), w)
  else
    match Document w input_file with
    | inl e => (inl e, w)
    | inr paragraphs =>
        match process_paragraphs separator_length loop_init paragraphs with
        | inl e => (inl e, w)
        | inr st =>
            let output_file := docx_path output_file in
            match save w output_file (out_table st) with
            | (inl e, w') => (inl e, w')
            | (inr _, w') => (inr output_file, w')
            end
        end
    end.
End ProcessDocx.

(** ** What the patterns mean

    The matcher above is the program; the definitions below say, without
    reference to it, which texts a pattern accepts. *)

(** The character before the position reached after reading [m]. *)
Fixpoint after (prev : option ascii) (m : str) : option ascii :=
  match m with
  | [] => prev
  | c :: m' => after (Some c) m'
  end.

(** [Matches r prev m rest]: [r] accepts [m] when [m] is preceded by the
    character [prev] and followed by [rest]. *)
Inductive Matches : regex -> option ascii -> str -> str -> Prop :=
| M_Eps prev rest : Matches Eps prev [] rest
| M_Class p c prev rest : p c = true -> Matches (Class p) prev [c] rest
| M_Cat r1 r2 prev m1 m2 rest :
    Matches r1 prev m1 (m2 ++ rest) ->
    Matches r2 (after prev m1) m2 rest ->
    Matches (Cat r1 r2) prev (m1 ++ m2) rest
| M_OptSome r prev m rest : Matches r prev m rest -> Matches (Opt r) prev m rest
| M_OptNone r prev rest : Matches (Opt r) prev [] rest
| M_Plus p prev m rest :
    m <> [] -> Forall (fun c => p c = true) m -> Matches (Plus p) prev m rest
| M_Boundary prev rest :
    at_boundary prev rest = true -> Matches WordBoundary prev [] rest
| M_Bol rest : Matches Bol None [] rest.

(** One or two digits, a colon, two digits, and optionally a colon and two
    more digits. *)
Definition is_timecode (tc : str) : bool :=
  match tc with
  | [h; c; m1; m2] =>
      isdigit h && is_char colon c && isdigit m1 && isdigit m2
  | [h1; h2; c; m1; m2] =>
      isdigit h1 && isdigit h2 && is_char colon c && isdigit m1 && isdigit m2
  | [h; c; m1; m2; c'; s1; s2] =>
      isdigit h && is_char colon c && isdigit m1 && isdigit m2
      && is_char colon c' && isdigit s1 && isdigit s2
  | [h1; h2; c; m1; m2; c'; s1; s2] =>
      isdigit h1 && isdigit h2 && is_char colon c && isdigit m1 && isdigit m2
      && is_char colon c' && isdigit s1 && isdigit s2
  | _ => false
  end.

(** [tc] stands in [pre ++ tc ++ post] as a token of its own: no word
    character touches it on either side. *)
Definition delimited (pre post : str) : Prop :=
  isword_opt (after None pre) = false /\ isword_opt (hd_error post) = false.

Definition contains_timecode_token (text : str) : Prop :=
  exists pre tc post,
    text = pre ++ tc ++ post /\ is_timecode tc = true /\ delimited pre post.

Definition begins_with_timecode_token (text : str) : Prop :=
  exists tc post,
    text = tc ++ post /\ is_timecode tc = true /\ delimited [] post.

Definition contains_dashes (text : str) : Prop :=
  exists pre post, text = pre ++ dashes ++ post.

(** A segment marker in the glossary's words. *)
Definition segment_marker_line (text : str) : Prop :=
  contains_timecode_token text /\ contains_dashes text.

(** The line begins with the token [name] or [name:], [name] in capitals;
    the token ends at a whitespace character or at the end of the line. *)
Definition begins_with_speaker_token (text : str) : Prop :=
  exists name tail,
    name <> [] /\ Forall (fun c => isupper_AZ c = true) name /\
    (text = name ++ tail \/ text = name ++ colon :: tail) /\
    match tail with
    | [] => True
    | c :: _ => isspace c = true
    end.

Definition digit_char (d : Z) : ascii := ascii_of_N (48 + Z.to_N d).

(** [s] is [n] written with exactly two decimal digits. *)
Definition two_digits (n : Z) (s : str) : Prop :=
  exists a b, 0 <= a <= 9 /\ 0 <= b <= 9 /\ n = 10 * a + b /\
              s = [digit_char a; digit_char b].

(** The number of segment markers among the paragraphs read so far. *)
Definition count_markers (paras : list str) : Z :=
  Z.of_nat (length (filter (fun p => is_segment_marker (strip p)) paras)).

(** ** What each kind of line puts into the table *)

Inductive line_kind := SegmentMarker | SpeakerLine | PlainLine.

(** The kind of a stripped paragraph text, once the pages before the first
    segment marker are over. *)
Definition classify (text : str) : line_kind :=
  if is_segment_marker text then SegmentMarker
  else match re_match speaker_pattern (remove_timecode text) with
       | Some _ => SpeakerLine
       | None => PlainLine
       end.

Definition speaker_of (text : str) : str :=
  match split text with
  | w :: _ => rstrip_char colon w
  | [] => []
  end.

Definition content_of (text : str) : str :=
  strip (join [space] (tl (split text))).

Definition speaker_cell (speaker : str) : list run :=
  if nonempty speaker then [Run speaker false red] else [].

Definition content_row (line : str) : row := Cells [] [Run line false None].

(** The rows of a speaker line: the speaker beside the first wrapped line,
    then one row per further line. *)
Definition speaker_rows (speaker content : str) : list row :=
  match split_text_into_lines content MAX_LINE_LENGTH with
  | first :: rest =>
      Cells (speaker_cell speaker) [Run first false None]
        :: map content_row rest
  | [] => [Cells (speaker_cell speaker) []]
  end.

Definition plain_rows (text : str) : list row :=
  if nonempty text then [content_row text] else [].

Definition marker_rows (separator_length : Z) (timecode : str) (count : Z)
  : list row :=
  [Merged [Run (times dash separator_length) false None];
   Merged [Run (segment_text separator_length timecode count) true None]].

(** The number a decimal numeral denotes, leading zeros allowed. *)
Definition decimal_value (s : str) : option Z :=
  option_map Z.of_int (NilZero.int_of_string (string_of_list_ascii s)).

Definition str_eqb (a b : str) : bool :=
  if list_eq_dec ascii_dec a b then true else false.

(** ** Two worlds to run [process_docx] in

    A disk holds input documents, as the texts of their paragraphs, and the
    documents saved so far.  It has no subdirectories: on [flat_save] a path
    with a directory part cannot be opened for writing, which Python reports
    as [FileNotFoundError]; [easy_save] accepts every path. *)

Record disk := Disk {
  inputs : list (str * list str);
  outputs : list (str * table)
}.

Definition lookup_input (d : disk) (path : str) : option (list str) :=
  match find (fun f => str_eqb (fst f) path) (inputs d) with
  | Some f => Some (snd f)
  | None => None
  end.

Definition disk_exists (d : disk) (path : str) : bool :=
  match lookup_input d path with
  | Some _ => true
  | None => false
  end.

Definition disk_Document (d : disk) (path : str) : result (list str) :=
  match lookup_input d path with
  | Some paragraphs => ret paragraphs
  | None => raise (LibraryError $"PackageNotFoundError")
  end.

Definition easy_save (d : disk) (path : str) (t : table)
  : result unit * disk :=
  (ret tt, Disk (inputs d) ((path, t) :: outputs d)).

Definition flat_save (d : disk) (path : str) (t : table)
  : result unit * disk :=
  if contains $"/" path
  then (raise (FileNotFoundError ($"No such file or directory: " ++ path)), d)
  else easy_save d path t.

Definition demo_disk : disk :=
  Disk [($"in.docx", [$"Title page"; $"0:00 ----------"; $"HOST: welcome"])]
       [].

(** The text of the last row of the table, when that row is a bold
    full-width header. *)
Definition last_header (r : result loop_state) : option str :=
  match r with
  | inr st =>
      match last (out_table st) (Cells [] []) with
      | Merged [Run text true None] => Some text
      | _ => None
      end
  | inl _ => None
  end.

(** ** More on wrapping *)

(** The invariant of the wrapping loop without any bound on the words:
    a line or a current line that does not fit is one word of the text. *)
Definition fits_or_single (m : Z) (words : list str) (l : str) : Prop :=
  len l <= m \/ (In l words /\ m < len l).

Record wrap_inv_any (m : Z) (words : list str) (st : wrap_state) : Prop :=
  WrapInvAny {
  any_lines : Forall (fits_or_single m words) (lines st);
  any_words : Forall is_word (current_line st);
  any_length : current_length st = len (join [space] (current_line st));
  any_current : current_line st = [] \/
                fits_or_single m words (join [space] (current_line st))
}.

(** Every line break was forced: the first word of a line would not have
    fitted, after a space, at the end of the line before. *)
Fixpoint breaks_forced (m : Z) (ls : list str) : Prop :=
  match ls with
  | l1 :: (l2 :: _) as rest =>
      m < len l1 + 1 + len (hd [] (split l2)) /\ breaks_forced m rest
  | _ => True
  end.

Record wrap_inv_greedy (m : Z) (st : wrap_state) : Prop := WrapInvGreedy {
  greedy_breaks : breaks_forced m (flush (lines st) (current_line st));
  greedy_lines : Forall joined_line (lines st);
  greedy_words : Forall is_word (current_line st);
  greedy_length : current_length st = len (join [space] (current_line st));
  greedy_first : current_line st = [] -> lines st = []
}.

(** ** Reading the table *)

Definition is_merged (r : row) : bool :=
  match r with
  | Merged _ => true
  | Cells _ _ => false
  end.

(** The text in the speaker cell and in the content cell of a row. *)
Definition speaker_text (r : row) : str :=
  match r with
  | Cells [Run s _ _] _ => s
  | _ => []
  end.

Definition content_text (r : row) : str :=
  match r with
  | Cells _ [Run c _ _] => c
  | _ => []
  end.

(** The rows the loop builds: a full-width row holds one uncoloured run; a
    two-column row holds one plain, non-empty content run and, in the
    speaker cell, nothing or one red run of capitals. *)
Definition well_formed_row (r : row) : Prop :=
  match r with
  | Merged runs => exists text bold, runs = [Run text bold None]
  | Cells sp ct =>
      (sp = [] \/ exists name, capitals name /\ sp = [Run name false red]) /\
      exists c, c <> [] /\ ct = [Run c false None]
  end.

(** The loop has passed its first segment marker. *)
Definition started (separator_length : Z) (st : loop_state) : Prop :=
  skip_pages st = false /\
  exists rest,
    out_table st
    = Merged [Run (times dash separator_length) false None] :: rest.

(** ** The script

    Lines 205-213: the input path is [sys.argv[1]], the output path is
    fixed, and the script prints one line. *)

Section Main.
Variable world : Type.
Variable path_exists : world -> str -> bool.
Variable Document : world -> str -> result (list str).
Variable save : world -> str -> table -> result unit * world.
Variable separator_length : Z.

Definition could_not_process : str := $"Error: Could not process the file.".

(** The line printed, or the exception that ends the script. *)
Definition main (w : world) (argv : list str) : result str * world :=
  match nth_error argv 1 with
  | None => (raise IndexError, w)                      (* sys.argv[1] *)
  | Some input_file =>
      let output_file := $"output.docx" in
      match process_docx world path_exists Document save separator_length
              w input_file output_file with
      | (inl e, w') => (inl e, w')
      | (inr result, w') =>
          (ret (if nonempty result then result else could_not_process), w')
      end
  end.
End Main.

(** * Properties *)

(** ** Words and whitespace *)

Lemma isspace_space : isspace space = true.
Proof. reflexivity. Qed.

Lemma len_app (a b : str) : len (a ++ b) = len a + len b.
Proof. unfold len. rewrite length_app. lia. Qed.

Lemma len_nonneg (s : str) : 0 <= len s.
Proof. unfold len. lia. Qed.

Lemma len_pos (s : str) : s <> [] -> 0 < len s.
Proof. destruct s; [congruence | unfold len; simpl; lia]. Qed.

Lemma spaceless_app (a b : str) : spaceless a -> spaceless b -> spaceless (a ++ b).
Proof. unfold spaceless. intros. apply Forall_app. auto. Qed.

Lemma split_from_words (s cur : str) :
  spaceless cur -> Forall is_word (split_from cur s).
Proof.
  revert cur. induction s as [|c s IH]; intros cur Hcur; simpl.
  - destruct cur; constructor; [|constructor].
    split; [discriminate | assumption].
  - destruct (isspace c) eqn:Hc.
    + destruct cur as [|a cur'].
      * apply IH. constructor.
      * constructor; [split; [discriminate | assumption]|].
        apply IH. constructor.
    + apply IH. apply spaceless_app; [assumption|].
      constructor; [assumption | constructor].
Qed.

Lemma split_words (s : str) : Forall is_word (split s).
Proof. apply split_from_words. constructor. Qed.

Lemma split_from_app (w s cur : str) :
  spaceless w -> split_from cur (w ++ s) = split_from (cur ++ w) s.
Proof.
  revert cur. induction w as [|c w IH]; intros cur Hw; simpl.
  - now rewrite app_nil_r.
  - inversion Hw as [|? ? Hc Hw']; subst. rewrite Hc.
    rewrite IH by assumption. now rewrite <- app_assoc.
Qed.

Lemma split_from_space (c : ascii) (s cur : str) :
  isspace c = true -> cur <> [] ->
  split_from cur (c :: s) = cur :: split_from [] s.
Proof.
  intros Hc Hcur. simpl. rewrite Hc. destruct cur; [congruence | reflexivity].
Qed.

(** Splitting a line of space-joined words gives the words back. *)
Lemma split_join (ws : list str) :
  Forall is_word ws -> split (join [space] ws) = ws.
Proof.
  unfold split. induction ws as [|w ws IH]; intros Hws; [reflexivity|].
  inversion Hws as [|? ? [Hne Hsp] Hws']; subst.
  destruct ws as [|w' ws].
  - simpl. rewrite <- (app_nil_r w) at 1.
    rewrite split_from_app by assumption. simpl.
    destruct w; [congruence | reflexivity].
  - change (join [space] (w :: w' :: ws))
      with (w ++ space :: join [space] (w' :: ws)).
    rewrite split_from_app by assumption. simpl app.
    rewrite split_from_space; [|reflexivity|assumption].
    now rewrite IH.
Qed.

Lemma split_from_nonempty (s cur : str) :
  cur <> [] \/ Exists (fun c => isspace c = false) s ->
  split_from cur s <> [].
Proof.
  revert cur. induction s as [|c s IH]; intros cur H; simpl.
  - destruct H as [H|H]; [|inversion H]. destruct cur; congruence.
  - destruct (isspace c) eqn:Hc.
    + destruct cur; [|discriminate].
      apply IH. destruct H as [H|H]; [congruence|].
      inversion H; subst; [congruence | now right].
    + apply IH. left. destruct cur; discriminate.
Qed.

Lemma join_snoc (sep : str) (ws : list str) (w : str) :
  ws <> [] -> join sep (ws ++ [w]) = join sep ws ++ sep ++ w.
Proof.
  induction ws as [|a ws IH]; intros Hne; [congruence|].
  destruct ws as [|b ws]; [reflexivity|].
  change (join sep ((a :: b :: ws) ++ [w]))
    with (a ++ sep ++ join sep ((b :: ws) ++ [w])).
  rewrite IH by discriminate.
  change (join sep (a :: b :: ws)) with (a ++ sep ++ join sep (b :: ws)).
  now rewrite <- !app_assoc.
Qed.

Lemma join_nonempty (sep : str) (ws : list str) :
  ws <> [] -> Forall is_word ws -> join sep ws <> [].
Proof.
  intros Hne Hws. destruct ws as [|w ws]; [congruence|].
  inversion Hws as [|? ? [Hw _] _]; subst.
  destruct ws; simpl; destruct w; simpl; congruence.
Qed.

(** ** Line wrapping *)

Lemma flush_words (ls cur : list str) :
  Forall is_word cur ->
  concat (map split (flush ls cur)) = concat (map split ls) ++ cur.
Proof.
  intros Hcur. destruct cur as [|w cur].
  - simpl. now rewrite app_nil_r.
  - change (flush ls (w :: cur)) with (ls ++ [join [space] (w :: cur)]).
    rewrite map_app, concat_app.
    change (map split [join [space] (w :: cur)])
      with [split (join [space] (w :: cur))].
    rewrite split_join by assumption. simpl. now rewrite app_nil_r.
Qed.

Lemma wrap_word_words (m : Z) (st : wrap_state) (w : str) :
  is_word w -> Forall is_word (current_line st) ->
  Forall is_word (current_line (wrap_word m st w)) /\
  concat (map split (lines (wrap_word m st w)))
    ++ current_line (wrap_word m st w)
  = (concat (map split (lines st)) ++ current_line st) ++ [w].
Proof.
  intros Hw Hcur. unfold wrap_word.
  destruct (_ <=? m); simpl.
  - split; [|now rewrite app_assoc].
    apply Forall_app. split; [assumption|]. now constructor.
  - split; [now constructor|]. now rewrite flush_words.
Qed.

Lemma wrap_fold_words (m : Z) (ws : list str) (st : wrap_state) :
  Forall is_word ws -> Forall is_word (current_line st) ->
  let st' := fold_left (wrap_word m) ws st in
  Forall is_word (current_line st') /\
  concat (map split (lines st')) ++ current_line st'
  = (concat (map split (lines st)) ++ current_line st) ++ ws.
Proof.
  revert st. induction ws as [|w ws IH]; intros st Hws Hcur; simpl.
  - split; [assumption | now rewrite app_nil_r].
  - inversion Hws as [|? ? Hw Hws']; subst.
    destruct (wrap_word_words m st w Hw Hcur) as [H1 H2].
    destruct (IH (wrap_word m st w) Hws' H1) as [H3 H4].
    split; [exact H3|]. rewrite H4, H2. now rewrite <- app_assoc.
Qed.

Lemma flush_bound (m : Z) (st : wrap_state) :
  wrap_inv m st ->
  Forall (fun l => len l <= m) (flush (lines st) (current_line st)).
Proof.
  intros [Hl Hw Hlen Hb]. unfold flush.
  destruct (current_line st) as [|w cur] eqn:E; [assumption|].
  apply Forall_app. split; [assumption|].
  constructor; [|constructor]. rewrite <- Hlen. apply Hb. discriminate.
Qed.

Lemma wrap_word_inv (m : Z) (st : wrap_state) (w : str) :
  is_word w -> len w <= m -> wrap_inv m st -> wrap_inv m (wrap_word m st w).
Proof.
  intros Hw Hwm Hinv. pose proof (flush_bound m st Hinv) as Hflush.
  destruct Hinv as [Hl Hws Hlen Hb]. unfold wrap_word.
  destruct (current_length st + len w + _ <=? m) eqn:Hfit.
  - apply Z.leb_le in Hfit. constructor; simpl.
    + assumption.
    + apply Forall_app. split; [assumption | now constructor].
    + destruct (current_line st) as [|a cur] eqn:E.
      * simpl in Hlen. rewrite Hlen. change (len []) with 0. simpl. lia.
      * rewrite join_snoc by discriminate. rewrite !len_app.
        assert (0 < current_length st) as Hpos.
        { rewrite Hlen. apply len_pos. apply join_nonempty;
            [discriminate | assumption]. }
        apply Z.ltb_lt in Hpos. rewrite Hpos.
        change (len [space]) with 1. lia.
    + intros _. lia.
  - constructor; simpl.
    + assumption.
    + now constructor.
    + reflexivity.
    + intros _. assumption.
Qed.

Lemma wrap_fold_inv (m : Z) (ws : list str) (st : wrap_state) :
  Forall is_word ws -> Forall (fun w => len w <= m) ws ->
  wrap_inv m st -> wrap_inv m (fold_left (wrap_word m) ws st).
Proof.
  revert st. induction ws as [|w ws IH]; intros st Hws Hm Hinv; simpl.
  - assumption.
  - inversion Hws; inversion Hm; subst.
    apply IH; try assumption. now apply wrap_word_inv.
Qed.

Lemma wrap_init_inv (m : Z) : wrap_inv m wrap_init.
Proof. constructor; simpl; try constructor. congruence. Qed.

Lemma wrap_fold_current (m : Z) (ws : list str) (st : wrap_state) :
  ws <> [] \/ current_line st <> [] ->
  current_line (fold_left (wrap_word m) ws st) <> [].
Proof.
  revert st. induction ws as [|w ws IH]; intros st H; simpl.
  - destruct H; congruence.
  - apply IH. right. unfold wrap_word.
    destruct (_ <=? m); simpl; [|discriminate].
    destruct (current_line st); discriminate.
Qed.

Lemma flush_nonempty (ls cur : list str) : cur <> [] -> flush ls cur <> [].
Proof.
  destruct cur; [congruence|]. intros _. simpl.
  destruct ls; discriminate.
Qed.

(** C1. If every whitespace-separated word of [text] is at most
    [max_length] characters long, for a positive [max_length], then so is
    every line [split_text_into_lines text max_length] returns. *)
Theorem wrapped_lines_fit (text : str) (max_length : Z) :
  0 < max_length ->
  Forall (fun w => len w <= max_length) (split text) ->
  Forall (fun l => len l <= max_length)
         (split_text_into_lines text max_length).
Proof.
  intros _ Hwords. unfold split_text_into_lines. apply flush_bound.
  apply wrap_fold_inv; [apply split_words | assumption | apply wrap_init_inv].
Qed.

Lemma wrapped_lines_fit_witness :
  0 < 9 /\
  Forall (fun w => len w <= 9) (split $"the quick brown fox") /\
  Forall (fun l => len l <= 9)
         (split_text_into_lines $"the quick brown fox" 9).
Proof.
  assert (H : Forall (fun w => len w <= 9) (split $"the quick brown fox")).
  { vm_compute. repeat constructor; discriminate. }
  split; [lia|]. split; [exact H|].
  apply (wrapped_lines_fit $"the quick brown fox" 9); [lia | exact H].
Defined.

(** C2. For every [text] and [max_length], the words of the returned lines,
    taken line by line in order, are exactly [text.split()]. *)
Theorem wrapped_lines_keep_words (text : str) (max_length : Z) :
  concat (map split (split_text_into_lines text max_length)) = split text.
Proof.
  unfold split_text_into_lines.
  destruct (wrap_fold_words max_length (split text) wrap_init
              (split_words text) (Forall_nil _)) as [Hcur Heq].
  rewrite flush_words by exact Hcur. exact Heq.
Qed.

Lemma wrap_nonempty (text : str) (max_length : Z) :
  Exists (fun c => isspace c = false) text ->
  split_text_into_lines text max_length <> [].
Proof.
  intros Hc. unfold split_text_into_lines.
  apply flush_nonempty. apply wrap_fold_current. left.
  apply split_from_nonempty. now right.
Qed.


(** ** The matcher against the meaning of patterns *)

Lemma after_app (prev : option ascii) (m1 m2 : str) :
  after prev (m1 ++ m2) = after (after prev m1) m2.
Proof. revert prev. induction m1; intros; simpl; auto. Qed.

Section MatcherCorrect.
Context {A : Type}.
Implicit Types (k : @cont A) (r : regex) (s m rest : str).

Lemma plus_class_sound p s k a :
  plus_class p s k = Some a ->
  forall prev, exists m rest,
    s = m ++ rest /\ Matches (Plus p) prev m rest /\
    k (after prev m) rest = Some a.
Proof.
  revert a. induction s as [|c s IH]; intros a H prev; simpl in H;
    [discriminate|].
  destruct (p c) eqn:Hc; [|discriminate].
  destruct (plus_class p s k) as [a'|] eqn:Hrec.
  - injection H as <-.
    destruct (IH a' eq_refl (Some c)) as (m & rest & -> & Hm & Hk).
    exists (c :: m), rest. split; [reflexivity|]. split; [|exact Hk].
    inversion Hm; subst. constructor; [discriminate | now constructor].
  - exists [c], s. split; [reflexivity|]. split; [|exact H].
    constructor; [discriminate | now constructor].
Qed.

Lemma exec_sound r : forall prev s k a,
  exec r prev s k = Some a ->
  exists m rest,
    s = m ++ rest /\ Matches r prev m rest /\ k (after prev m) rest = Some a.
Proof.
  induction r as [|p|r1 IH1 r2 IH2|r1 IH1|p| |]; intros prev s k a H;
    simpl in H.
  - exists [], s. repeat split; [constructor | exact H].
  - destruct s as [|c s]; [discriminate|].
    destruct (p c) eqn:Hc; [|discriminate].
    exists [c], s. repeat split; [now constructor | exact H].
  - apply IH1 in H. destruct H as (m1 & rest1 & -> & Hm1 & H).
    apply IH2 in H. destruct H as (m2 & rest & -> & Hm2 & H).
    exists (m1 ++ m2), rest. rewrite <- app_assoc. split; [reflexivity|].
    split; [now constructor | now rewrite after_app].
  - destruct (exec r1 prev s k) as [a'|] eqn:Hrec.
    + injection H as <-. apply IH1 in Hrec.
      destruct Hrec as (m & rest & -> & Hm & Hk).
      exists m, rest. repeat split; [now apply M_OptSome | exact Hk].
    + exists [], s. repeat split; [apply M_OptNone | exact H].
  - now apply plus_class_sound.
  - destruct (at_boundary prev s) eqn:Hb; [|discriminate].
    exists [], s. repeat split; [now constructor | exact H].
  - destruct prev; [discriminate|].
    exists [], s. repeat split; [constructor | exact H].
Qed.

Lemma plus_class_complete p m : forall prev rest k a,
  m <> [] -> Forall (fun c => p c = true) m ->
  k (after prev m) rest = Some a ->
  exists a', plus_class p (m ++ rest) k = Some a'.
Proof.
  induction m as [|c m IH]; intros prev rest k a Hne Hall Hk;
    [congruence|].
  inversion Hall as [|? ? Hc Hall']; subst. simpl. rewrite Hc.
  destruct m as [|c' m].
  - simpl in *. destruct (plus_class p rest k); eauto.
  - destruct (IH (Some c) rest k a) as [a' Ha']; [discriminate|assumption|
      exact Hk|].
    rewrite Ha'. eauto.
Qed.

Lemma exec_complete r prev m rest :
  Matches r prev m rest ->
  forall k a, k (after prev m) rest = Some a ->
  exists a', exec r prev (m ++ rest) k = Some a'.
Proof.
  induction 1 as [prev rest|p c prev rest Hc
                 |r1 r2 prev m1 m2 rest _ IH1 _ IH2
                 |r prev m rest _ IH|r prev rest
                 |p prev m rest Hne Hall|prev rest Hb|rest];
    intros k a Hk; simpl.
  - eauto.
  - rewrite Hc. eauto.
  - rewrite after_app in Hk.
    destruct (IH2 k a Hk) as [a2 H2].
    rewrite <- app_assoc.
    apply (IH1 (fun prev' s' => exec r2 prev' s' k) a2 H2).
  - destruct (IH k a Hk) as [a' ->]. eauto.
  - destruct (exec r prev rest k); eauto.
  - eapply plus_class_complete; eauto.
  - rewrite Hb. eauto.
  - eauto.
Qed.
End MatcherCorrect.

Lemma firstn_app_exact (m rest : str) :
  firstn (length (m ++ rest) - length rest) (m ++ rest) = m.
Proof.
  rewrite length_app. replace (length m + length rest - length rest)%nat
    with (length m + 0)%nat by lia.
  rewrite firstn_app_2. simpl. now rewrite app_nil_r.
Qed.

(** A match attempt that succeeds returns a prefix the pattern accepts. *)
Lemma match_here_sound (r : regex) (prev : option ascii) (s m : str) :
  match_here r prev s = Some m ->
  exists rest, s = m ++ rest /\ Matches r prev m rest.
Proof.
  unfold match_here. intros H.
  destruct (exec r prev s _) as [rest|] eqn:E; [|discriminate].
  apply exec_sound in E. destruct E as (m' & rest' & -> & Hm & Hk).
  injection Hk as <-. injection H as <-.
  rewrite firstn_app_exact. eauto.
Qed.

(** A match attempt succeeds wherever the pattern accepts some prefix. *)
Lemma match_here_complete (r : regex) (prev : option ascii) (m rest : str) :
  Matches r prev m rest -> exists m', match_here r prev (m ++ rest) = Some m'.
Proof.
  intros H. unfold match_here.
  destruct (exec_complete r prev m rest H (fun _ rest => Some rest) rest
              eq_refl) as [a' ->].
  eauto.
Qed.

Lemma search_from_sound (r : regex) (s : str) : forall prev m,
  search_from r prev s = Some m ->
  exists pre rest,
    s = pre ++ m ++ rest /\ Matches r (after prev pre) m rest.
Proof.
  induction s as [|c s IH]; intros prev m H; simpl in H.
  - destruct (match_here r prev []) as [m'|] eqn:E; [|discriminate].
    injection H as <-. apply match_here_sound in E.
    destruct E as (rest & E & Hm). exists [], rest. now split.
  - destruct (match_here r prev (c :: s)) as [m'|] eqn:E.
    + injection H as <-. apply match_here_sound in E.
      destruct E as (rest & E & Hm). exists [], rest. now split.
    + apply IH in H. destruct H as (pre & rest & -> & Hm).
      exists (c :: pre), rest. now split.
Qed.

Lemma search_from_here (r : regex) (prev : option ascii) (s m : str) :
  match_here r prev s = Some m -> search_from r prev s = Some m.
Proof. intros H. destruct s; simpl; now rewrite H. Qed.

Lemma search_from_complete (r : regex) (pre m rest : str) : forall prev,
  Matches r (after prev pre) m rest ->
  exists m', search_from r prev (pre ++ m ++ rest) = Some m'.
Proof.
  induction pre as [|c pre IH]; intros prev H.
  - apply match_here_complete in H. destruct H as [m' H].
    exists m'. now apply search_from_here.
  - simpl app. simpl search_from.
    destruct (match_here r prev _); [eauto|].
    apply IH. exact H.
Qed.

(** ** The timecode pattern *)

Lemma isdigit_isword (c : ascii) : isdigit c = true -> isword c = true.
Proof. unfold isdigit, isword. now intros ->. Qed.

Lemma is_char_eq (a c : ascii) : is_char a c = true -> c = a.
Proof. unfold is_char. intros H. apply Ascii.eqb_eq in H. congruence. Qed.

Lemma is_char_refl (a : ascii) : is_char a a = true.
Proof. apply Ascii.eqb_refl. Qed.

Lemma boundary_left (prev : option ascii) (c : ascii) (s : str) :
  isword c = true ->
  at_boundary prev (c :: s) = negb (isword_opt prev).
Proof. unfold at_boundary. simpl. intros ->. now destruct (isword_opt prev). Qed.

Lemma boundary_right (c : ascii) (s : str) :
  isword c = true ->
  at_boundary (Some c) s = negb (isword_opt (hd_error s)).
Proof.
  unfold at_boundary. simpl. intros ->. now destruct (isword_opt (hd_error s)).
Qed.

Ltac invert_matches :=
  repeat match goal with
    | H : Matches (Cat _ _) _ _ _ |- _ => inversion H; subst; clear H
    | H : Matches (Class _) _ _ _ |- _ => inversion H; subst; clear H
    | H : Matches (Opt _) _ _ _ |- _ => inversion H; subst; clear H
    | H : Matches Eps _ _ _ |- _ => inversion H; subst; clear H
    | H : Matches WordBoundary _ _ _ |- _ => inversion H; subst; clear H
    | H : Matches Bol _ _ _ |- _ => inversion H; subst; clear H
    end.

Lemma timecode_accepts_form (prev : option ascii) (m rest : str) :
  Matches timecode_regex prev m rest ->
  is_timecode m = true /\ isword_opt prev = false
  /\ isword_opt (hd_error rest) = false.
Proof.
  unfold timecode_regex, digit, chr. cbn [rep upto]. intros H.
  invert_matches; cbn [app after] in *;
    repeat match goal with
      | H : is_char _ _ = true |- _ => apply is_char_eq in H; subst
      | H : at_boundary _ (_ :: _) = true |- _ =>
          rewrite boundary_left in H by now apply isdigit_isword
      | H : at_boundary (Some _) _ = true |- _ =>
          rewrite boundary_right in H by now apply isdigit_isword
      | H : negb _ = true |- _ => apply negb_true_iff in H
      end;
    (split; [|split; assumption]); cbn [is_timecode];
    repeat match goal with
      | H : isdigit _ = true |- _ => rewrite H; clear H
      end; reflexivity.
Qed.

Ltac mcat m1 m2 := apply (M_Cat _ _ _ m1 m2 _); cbn [app after].

Lemma digit_accepts (prev : option ascii) (c : ascii) (rest : str) :
  isdigit c = true -> Matches digit prev [c] rest.
Proof. intros H. now apply M_Class. Qed.

Lemma colon_accepts (prev : option ascii) (rest : str) :
  Matches (chr colon) prev [colon] rest.
Proof. apply M_Class. apply is_char_refl. Qed.

Lemma two_digits_accept (prev : option ascii) (a b : ascii) (rest : str) :
  isdigit a = true -> isdigit b = true ->
  Matches (rep digit 2 0) prev [a; b] rest.
Proof.
  intros Ha Hb. cbn [rep upto].
  mcat [a] [b]; [now apply digit_accepts|].
  mcat [b] (@nil ascii); [now apply digit_accepts | apply M_Eps].
Qed.

Lemma hour1_accepts (prev : option ascii) (a : ascii) (rest : str) :
  isdigit a = true -> Matches (rep digit 1 1) prev [a] rest.
Proof.
  intros Ha. cbn [rep upto].
  mcat [a] (@nil ascii); [now apply digit_accepts | apply M_OptNone].
Qed.

Lemma hour2_accepts (prev : option ascii) (a b : ascii) (rest : str) :
  isdigit a = true -> isdigit b = true ->
  Matches (rep digit 1 1) prev [a; b] rest.
Proof.
  intros Ha Hb. cbn [rep upto].
  mcat [a] [b]; [now apply digit_accepts|]. apply M_OptSome.
  mcat [b] (@nil ascii); [now apply digit_accepts | apply M_Eps].
Qed.

Lemma seconds_accept (prev : option ascii) (a b : ascii) (rest : str) :
  isdigit a = true -> isdigit b = true ->
  Matches (Opt (chr colon ;; rep digit 2 0)) prev [colon; a; b] rest.
Proof.
  intros Ha Hb. apply M_OptSome.
  mcat [colon] [a; b]; [apply colon_accepts | now apply two_digits_accept].
Qed.

Ltac split_andb :=
  repeat match goal with
    | H : _ && _ = true |- _ => apply andb_true_iff in H; destruct H
    | H : is_char _ _ = true |- _ => apply is_char_eq in H; subst
    end.

Lemma timecode_form_accepted (prev : option ascii) (m rest : str) :
  is_timecode m = true -> isword_opt prev = false ->
  isword_opt (hd_error rest) = false ->
  Matches timecode_regex prev m rest.
Proof.
  intros Hm Hprev Hrest. unfold timecode_regex.
  assert (Hl : forall c s, isdigit c = true ->
                 Matches WordBoundary prev [] (c :: s)).
  { intros c s Hc. apply M_Boundary.
    rewrite boundary_left by now apply isdigit_isword. now rewrite Hprev. }
  assert (Hr : forall c, isdigit c = true ->
                 Matches WordBoundary (Some c) [] rest).
  { intros c Hc. apply M_Boundary.
    rewrite boundary_right by now apply isdigit_isword. now rewrite Hrest. }
  destruct m as [|a [|b [|c [|d [|e [|f [|g [|h [|i m]]]]]]]]];
    try discriminate Hm; cbn [is_timecode] in Hm; split_andb.
  - (* H:MM *)
    mcat (@nil ascii) [a; colon; c; d]; [now apply Hl|].
    mcat [a] [colon; c; d]; [now apply hour1_accepts|].
    mcat [colon] [c; d]; [apply colon_accepts|].
    mcat [c; d] (@nil ascii); [now apply two_digits_accept|].
    mcat (@nil ascii) (@nil ascii); [apply M_OptNone | now apply Hr].
  - (* HH:MM *)
    mcat (@nil ascii) [a; b; colon; d; e]; [now apply Hl|].
    mcat [a; b] [colon; d; e]; [now apply hour2_accepts|].
    mcat [colon] [d; e]; [apply colon_accepts|].
    mcat [d; e] (@nil ascii); [now apply two_digits_accept|].
    mcat (@nil ascii) (@nil ascii); [apply M_OptNone | now apply Hr].
  - (* H:MM:SS *)
    mcat (@nil ascii) [a; colon; c; d; colon; f; g]; [now apply Hl|].
    mcat [a] [colon; c; d; colon; f; g]; [now apply hour1_accepts|].
    mcat [colon] [c; d; colon; f; g]; [apply colon_accepts|].
    mcat [c; d] [colon; f; g]; [now apply two_digits_accept|].
    mcat [colon; f; g] (@nil ascii); [now apply seconds_accept | now apply Hr].
  - (* HH:MM:SS *)
    mcat (@nil ascii) [a; b; colon; d; e; colon; g; h]; [now apply Hl|].
    mcat [a; b] [colon; d; e; colon; g; h]; [now apply hour2_accepts|].
    mcat [colon] [d; e; colon; g; h]; [apply colon_accepts|].
    mcat [d; e] [colon; g; h]; [now apply two_digits_accept|].
    mcat [colon; g; h] (@nil ascii); [now apply seconds_accept | now apply Hr].
Qed.

Lemma search_timecode_sound (text tc : str) :
  re_search timecode_regex text = Some tc ->
  exists pre post,
    text = pre ++ tc ++ post /\ is_timecode tc = true /\ delimited pre post.
Proof.
  intros H. apply search_from_sound in H.
  destruct H as (pre & post & -> & Hm).
  apply timecode_accepts_form in Hm. destruct Hm as (Htc & Hl & Hr).
  exists pre, post. repeat split; assumption.
Qed.

Lemma search_timecode_complete (text : str) :
  contains_timecode_token text ->
  exists tc, re_search timecode_regex text = Some tc.
Proof.
  intros (pre & tc & post & -> & Htc & Hl & Hr).
  apply search_from_complete. now apply timecode_form_accepted.
Qed.

Lemma match_timecode_sound (text tc : str) :
  re_match timecode_regex text = Some tc ->
  exists post,
    text = tc ++ post /\ is_timecode tc = true /\ delimited [] post.
Proof.
  intros H. apply match_here_sound in H. destruct H as (post & -> & Hm).
  apply timecode_accepts_form in Hm. destruct Hm as (Htc & Hl & Hr).
  exists post. repeat split; assumption.
Qed.

Lemma match_timecode_complete (text : str) :
  begins_with_timecode_token text ->
  exists tc, re_match timecode_regex text = Some tc.
Proof.
  intros (tc & post & -> & Htc & Hl & Hr).
  apply match_here_complete. now apply timecode_form_accepted.
Qed.

(** ** The longest leading timecode *)

Ltac run_timecode :=
  unfold re_match, match_here, timecode_regex, digit, chr;
  cbn [rep upto exec app];
  rewrite boundary_left by (now apply isdigit_isword);
  cbn [isword_opt negb];
  repeat match goal with
    | H : isdigit ?x = true |- context [isdigit ?x] => rewrite H
    end;
  change (isdigit colon) with false;
  change (is_char colon colon) with true;
  cbv iota;
  repeat match goal with
    | H : isdigit ?x = true |- context [at_boundary (Some ?x) _] =>
        rewrite (boundary_right x) by (now apply isdigit_isword)
    end.

(** A leading timecode with seconds is the one the pattern matches. *)
Lemma match_timecode_long (tc post : str) :
  is_timecode tc = true -> (7 <= length tc)%nat ->
  isword_opt (hd_error post) = false ->
  re_match timecode_regex (tc ++ post) = Some tc.
Proof.
  intros Htc Hlen Hpost.
  destruct tc as [|a [|b [|c [|d [|e [|f [|g [|h [|i m]]]]]]]]];
    try discriminate Htc; simpl in Hlen; try lia;
    cbn [is_timecode] in Htc; split_andb; run_timecode;
    rewrite Hpost; cbn [negb]; f_equal.
  - apply (firstn_app_exact [a; colon; c; d; colon; f; g] post).
  - apply (firstn_app_exact [a; b; colon; d; e; colon; g; h] post).
Qed.

Lemma timecode_lengths (tc : str) :
  is_timecode tc = true ->
  (length tc = 4 \/ length tc = 5 \/ length tc = 7 \/ length tc = 8)%nat.
Proof.
  intros H.
  destruct tc as [|a [|b [|c [|d [|e [|f [|g [|h [|i m]]]]]]]]];
    try discriminate H; simpl; auto.
Qed.

(** The pattern matches the longest timecode token the text begins with. *)
Lemma match_timecode_longest (text tc tc' post' : str) :
  re_match timecode_regex text = Some tc ->
  text = tc' ++ post' -> is_timecode tc' = true -> delimited [] post' ->
  (length tc' <= length tc)%nat.
Proof.
  intros Hm -> Htc' [_ Hpost'].
  destruct (Nat.le_gt_cases 7 (length tc')) as [Hlong|Hshort].
  - rewrite (match_timecode_long tc' post' Htc' Hlong Hpost') in Hm.
    injection Hm as <-. lia.
  - destruct (match_timecode_sound _ _ Hm) as (post & E & Htc & _).
    destruct (timecode_lengths tc Htc) as [L|[L|[L|L]]];
      destruct (timecode_lengths tc' Htc') as [L'|[L'|[L'|L']]]; try lia.
    exfalso.
    destruct tc as [|a [|b [|c [|d [|e m]]]]]; try discriminate L.
    destruct tc' as [|a' [|b' [|c' [|d' [|e' [|f' m']]]]]];
      try discriminate L'.
    cbn [is_timecode] in Htc, Htc'. split_andb.
    cbn [app] in E. injection E as E1 E2.
    match goal with
    | H : isdigit colon = true |- _ => discriminate H
    | H : isdigit ?x = true |- _ => subst x; discriminate H
    end.
Qed.

(** ** Prefixes and substrings *)

Lemma startswith_spec (s p : str) :
  startswith s p = true <-> exists post, s = p ++ post.
Proof.
  revert s. induction p as [|a p IH]; intros s; simpl.
  - split; [intros _; now exists s | reflexivity].
  - destruct s as [|c s].
    + split; [discriminate | intros [post H]; discriminate].
    + rewrite andb_true_iff, IH. split.
      * intros [Hc [post ->]]. apply is_char_eq in Hc. subst. now exists post.
      * intros [post H]. injection H as -> ->.
        split; [apply is_char_refl | now exists post].
Qed.

Lemma contains_spec (p s : str) :
  contains p s = true <-> exists pre post, s = pre ++ p ++ post.
Proof.
  induction s as [|c s IH]; simpl; rewrite orb_true_iff, startswith_spec.
  - split.
    + intros [[post H]|H]; [|discriminate]. now exists [], post.
    + intros (pre & post & H). left.
      destruct pre; [now exists post | discriminate].
  - rewrite IH. split.
    + intros [[post H]|(pre & post & ->)]; [now exists [], post|].
      now exists (c :: pre), post.
    + intros (pre & post & H). destruct pre as [|a pre].
      * left. now exists post.
      * right. injection H as -> ->. now exists pre, post.
Qed.

Lemma is_segment_marker_spec (text : str) :
  is_segment_marker text = true <-> segment_marker_line text.
Proof.
  unfold is_segment_marker, segment_marker_line, segment_marker_pattern,
    contains_dashes.
  rewrite <- contains_spec. split.
  - destruct (re_search timecode_regex text) as [tc|] eqn:E; [|discriminate].
    intros Hd. split; [|exact Hd].
    apply search_timecode_sound in E.
    destruct E as (pre & post & E & H). now exists pre, tc, post.
  - intros [Htc Hd]. apply search_timecode_complete in Htc.
    destruct Htc as [tc ->]. exact Hd.
Qed.

(** ** Stripping *)

Lemma lstrip_head (s r : str) (c : ascii) :
  lstrip s = c :: r -> isspace c = false.
Proof.
  induction s as [|a s IH]; simpl; [discriminate|].
  destruct (isspace a) eqn:Ha; [exact IH|].
  intros H. injection H as <- _. exact Ha.
Qed.

Lemma lstrip_fixed (s : str) (c : ascii) :
  isspace c = false -> lstrip (c :: s) = c :: s.
Proof. intros H. simpl. now rewrite H. Qed.

(** A stripped text is empty or ends with a character that is not
    whitespace. *)
Lemma rstrip_last (s : str) :
  rstrip s = [] \/ exists r c, rstrip s = r ++ [c] /\ isspace c = false.
Proof.
  unfold rstrip. destruct (lstrip (rev s)) as [|c r] eqn:E; [now left|].
  right. exists (rev r), c. split; [reflexivity|].
  now apply lstrip_head in E.
Qed.

Lemma strip_last (s : str) :
  strip s = [] \/ exists r c, strip s = r ++ [c] /\ isspace c = false.
Proof. apply rstrip_last. Qed.

Lemma strip_fixed (s : str) (a c : ascii) :
  isspace a = false -> isspace c = false ->
  strip (a :: s ++ [c]) = a :: s ++ [c].
Proof.
  intros Ha Hc. unfold strip, rstrip. rewrite lstrip_fixed by assumption.
  assert (E : rev (a :: s ++ [c]) = c :: rev (a :: s)).
  { change (a :: s ++ [c]) with ((a :: s) ++ [c]). now rewrite rev_app_distr. }
  rewrite E, lstrip_fixed by assumption. rewrite <- E. apply rev_involutive.
Qed.

Lemma strip_nonspace (s : str) :
  nonempty (strip s) = true -> Exists (fun c => isspace c = false) (strip s).
Proof.
  destruct (strip_last s) as [->|(r & c & -> & Hc)]; [discriminate|].
  intros _. apply Exists_app. right. now constructor.
Qed.

(** ** The shape of wrapped lines *)

Lemma flush_joined (ls cur : list str) :
  Forall joined_line ls -> Forall is_word cur ->
  Forall joined_line (flush ls cur).
Proof.
  intros Hls Hcur. destruct cur as [|w cur]; [assumption|].
  apply Forall_app. split; [assumption|].
  constructor; [|constructor].
  exists (w :: cur). split; [discriminate | now split].
Qed.

Lemma wrap_fold_joined (m : Z) (ws : list str) (st : wrap_state) :
  Forall is_word ws ->
  Forall joined_line (lines st) -> Forall is_word (current_line st) ->
  let st' := fold_left (wrap_word m) ws st in
  Forall joined_line (lines st') /\ Forall is_word (current_line st').
Proof.
  revert st. induction ws as [|w ws IH]; intros st Hws Hl Hc; simpl.
  - now split.
  - inversion Hws; subst. apply IH; try assumption; unfold wrap_word;
      destruct (_ <=? m); simpl; try assumption.
    + now apply flush_joined.
    + apply Forall_app. split; [assumption | now constructor].
    + now constructor.
Qed.

Lemma wrapped_lines_joined (text : str) (m : Z) :
  Forall joined_line (split_text_into_lines text m).
Proof.
  unfold split_text_into_lines.
  destruct (wrap_fold_joined m (split text) wrap_init (split_words text)
              (Forall_nil _) (Forall_nil _)) as [H1 H2].
  now apply flush_joined.
Qed.

Lemma joined_line_nonempty (l : str) : joined_line l -> nonempty l = true.
Proof.
  intros (ws & Hne & Hws & ->).
  pose proof (join_nonempty [space] ws Hne Hws).
  destruct (join [space] ws); [congruence | reflexivity].
Qed.

(** A word starts and ends with a character that is not whitespace. *)
Lemma word_ends (w : str) :
  is_word w ->
  (exists a r, w = a :: r /\ isspace a = false) /\
  (exists r c, w = r ++ [c] /\ isspace c = false).
Proof.
  intros [Hne Hsp]. split.
  - destruct w as [|a r]; [congruence|]. exists a, r.
    inversion Hsp; subst. now split.
  - destruct (exists_last Hne) as (r & c & ->). exists r, c.
    split; [reflexivity|]. apply Forall_app in Hsp. destruct Hsp as [_ Hc].
    now inversion Hc.
Qed.

Lemma join_first (sep : str) (w : str) (ws : list str) :
  exists r, join sep (w :: ws) = w ++ r.
Proof.
  destruct ws; simpl; [exists []; now rewrite app_nil_r | eauto].
Qed.

Lemma join_last (sep : str) (ws : list str) (w : str) :
  exists r, join sep (ws ++ [w]) = r ++ w.
Proof.
  destruct ws as [|a ws]; [now exists []|].
  rewrite join_snoc by discriminate. exists (join sep (a :: ws) ++ sep).
  now rewrite <- app_assoc.
Qed.

(** Stripping changes nothing in a line of joined words. *)
Lemma strip_joined (l : str) : joined_line l -> strip l = l.
Proof.
  intros (ws & Hne & Hws & ->).
  assert (exists a r, join [space] ws = a :: r /\ isspace a = false)
    as (a & r & E & Ha).
  { destruct ws as [|w ws]; [congruence|]. inversion Hws; subst.
    destruct (join_first [space] w ws) as [r ->].
    destruct (word_ends w) as [(a & r' & -> & Ha) _]; [assumption|].
    exists a, (r' ++ r). now split. }
  assert (exists r c, join [space] ws = r ++ [c] /\ isspace c = false)
    as (r' & c & E' & Hc).
  { destruct (exists_last Hne) as (ws' & w & ->).
    apply Forall_app in Hws. destruct Hws as [_ Hw]. inversion Hw; subst.
    destruct (join_last [space] ws' w) as [r' ->].
    destruct (word_ends w) as [_ (r'' & c & -> & Hc)]; [assumption|].
    exists (r' ++ r''), c. now rewrite <- app_assoc. }
  rewrite E. rewrite E in E'. destruct r' as [|b r'].
  - simpl in E'. injection E' as <- ->. unfold strip, rstrip. simpl.
    rewrite Ha. simpl. now rewrite Ha.
  - simpl in E'. injection E' as <- ->. now apply strip_fixed.
Qed.

(** ** The paragraph loop *)

Lemma add_content_rows (ls : list str) : forall t,
  Forall (fun l => nonempty l = true) ls ->
  fold_left (fun t line => add_split_content t [] line None) ls t
  = t ++ map content_row ls.
Proof.
  induction ls as [|l ls IH]; intros t Hls; simpl.
  - now rewrite app_nil_r.
  - inversion Hls as [|? ? Hl Hls']; subst. rewrite IH by assumption.
    unfold add_split_content, content_row. rewrite Hl. simpl.
    now rewrite <- app_assoc.
Qed.

Lemma wrapped_lines_of_empty (m : Z) : split_text_into_lines [] m = [].
Proof. reflexivity. Qed.

Lemma nonempty_false (s : str) : nonempty s = false -> s = [].
Proof. destruct s; [reflexivity | discriminate]. Qed.

(** [emit_speaker] always succeeds: [lines[0]] is read only when the content
    has a character that is not whitespace, and then there is a first
    line. *)
Lemma emit_speaker_rows (t : table) (text : str) :
  emit_speaker t text
  = ret (t ++ speaker_rows (speaker_of text) (content_of text)).
Proof.
  unfold emit_speaker, speaker_rows.
  fold (speaker_of text). fold (content_of text).
  destruct (nonempty (content_of text)) eqn:Hc.
  - pose proof (wrapped_lines_joined (content_of text) MAX_LINE_LENGTH) as Hj.
    destruct (split_text_into_lines (content_of text) MAX_LINE_LENGTH)
      as [|first rest] eqn:E.
    + exfalso. revert E. apply wrap_nonempty.
      now apply strip_nonspace.
    + inversion Hj as [|? ? Hfirst Hrest]; subst.
      rewrite add_content_rows.
      * unfold add_split_content, ret.
        rewrite (joined_line_nonempty first Hfirst).
        fold (speaker_cell (speaker_of text)).
        now rewrite <- app_assoc.
      * eapply Forall_impl; [|exact Hrest]. apply joined_line_nonempty.
  - apply nonempty_false in Hc. rewrite Hc, wrapped_lines_of_empty.
    reflexivity.
Qed.

Lemma marker_has_timecode (text : str) :
  is_segment_marker text = true ->
  exists tc, re_search segment_marker_pattern text = Some tc.
Proof.
  unfold is_segment_marker.
  destruct (re_search segment_marker_pattern text); [eauto | discriminate].
Qed.

Lemma emit_segment_marker_rows (sep : Z) (st : loop_state) (tc : str) :
  emit_segment_marker sep st tc
  = LoopState (segment_count st + 1) false
      (out_table st ++ marker_rows sep tc (segment_count st + 1)).
Proof.
  unfold emit_segment_marker, add_row_content, marker_rows.
  now rewrite <- app_assoc.
Qed.

(** One iteration on a segment marker. *)
Lemma process_marker (sep : Z) (st : loop_state) (p tc : str) :
  is_segment_marker (strip p) = true ->
  re_search segment_marker_pattern (strip p) = Some tc ->
  process_paragraph sep st p
  = ret (LoopState (segment_count st + 1) false
           (out_table st ++ marker_rows sep tc (segment_count st + 1))).
Proof.
  intros Hm Htc. unfold process_paragraph. rewrite Hm, Htc.
  rewrite andb_false_r. now rewrite emit_segment_marker_rows.
Qed.

(** One iteration before the first segment marker. *)
Lemma process_skipped (sep : Z) (st : loop_state) (p : str) :
  is_segment_marker (strip p) = false -> skip_pages st = true ->
  process_paragraph sep st p = ret st.
Proof. intros Hm Hs. unfold process_paragraph. now rewrite Hm, Hs. Qed.

(** One iteration on any other line. *)
Lemma process_other (sep : Z) (st : loop_state) (p : str) :
  is_segment_marker (strip p) = false -> skip_pages st = false ->
  process_paragraph sep st p
  = ret (LoopState (segment_count st) false
           (out_table st ++
            match classify (strip p) with
            | SpeakerLine =>
                speaker_rows (speaker_of (remove_timecode (strip p)))
                             (content_of (remove_timecode (strip p)))
            | _ => plain_rows (remove_timecode (strip p))
            end)).
Proof.
  intros Hm Hs. unfold process_paragraph, classify. rewrite Hm, Hs. simpl.
  destruct (re_match speaker_pattern _).
  - now rewrite emit_speaker_rows.
  - unfold emit_plain, plain_rows, add_split_content, content_row.
    destruct (nonempty _) eqn:E; [reflexivity | now rewrite app_nil_r].
Qed.

(** The loop body never raises. *)
Lemma process_paragraph_total (sep : Z) (st : loop_state) (p : str) :
  exists st', process_paragraph sep st p = ret st'.
Proof.
  destruct (is_segment_marker (strip p)) eqn:Hm.
  - destruct (marker_has_timecode _ Hm) as [tc Htc].
    rewrite (process_marker sep st p tc Hm Htc). eauto.
  - destruct (skip_pages st) eqn:Hs.
    + rewrite process_skipped by assumption. eauto.
    + rewrite process_other by assumption. eauto.
Qed.

Lemma process_paragraphs_total (sep : Z) (paras : list str) : forall st,
  exists st', process_paragraphs sep st paras = ret st'.
Proof.
  induction paras as [|p paras IH]; intros st; simpl; [eauto|].
  destruct (process_paragraph_total sep st p) as [st1 ->]. apply IH.
Qed.

Lemma process_paragraphs_app (sep : Z) (ps qs : list str) : forall st st1,
  process_paragraphs sep st ps = ret st1 ->
  process_paragraphs sep st (ps ++ qs) = process_paragraphs sep st1 qs.
Proof.
  induction ps as [|p ps IH]; intros st st1 H; simpl in *.
  - now injection H as ->.
  - destruct (process_paragraph sep st p) as [e|st2]; [discriminate|].
    simpl in *. now apply IH.
Qed.

(** ** The speaker pattern *)

Lemma speaker_accepts_form (m rest : str) :
  Matches speaker_pattern None m rest ->
  exists name c,
    capitals name /\ isspace c = true /\
    (m = name ++ [c] \/ m = name ++ [colon; c]).
Proof.
  unfold speaker_pattern, chr. intros H. invert_matches;
    match goal with
    | H : Matches (Plus _) _ _ _ |- _ => inversion H; subst; clear H
    end;
    repeat match goal with
      | H : is_char _ _ = true |- _ => apply is_char_eq in H; subst
      end; cbn [app].
  - exists m0, c. split; [now split|]. split; [assumption|]. right.
    reflexivity.
  - exists m0, c. split; [now split|]. split; [assumption|]. now left.
Qed.

Lemma speaker_form_accepted (name : str) (c : ascii) (rest : str) :
  capitals name -> isspace c = true ->
  Matches speaker_pattern None (name ++ [c]) rest /\
  Matches speaker_pattern None (name ++ [colon; c]) rest.
Proof.
  intros [Hne Hup] Hc. unfold speaker_pattern. split.
  - mcat (@nil ascii) (name ++ [c]); [apply M_Bol|].
    apply M_Cat; [now apply M_Plus|].
    mcat (@nil ascii) [c]; [apply M_OptNone | now apply M_Class].
  - mcat (@nil ascii) (name ++ [colon; c]); [apply M_Bol|].
    apply M_Cat; [now apply M_Plus|].
    mcat [colon] [c]; [|now apply M_Class].
    apply M_OptSome. apply colon_accepts.
Qed.

(** [speaker_pattern.match(text)] succeeds exactly on a text that begins
    with capitals, then at most one colon, then a whitespace character. *)
Lemma speaker_match_spec (text : str) :
  (exists m, re_match speaker_pattern text = Some m) <->
  exists name c tail,
    capitals name /\ isspace c = true /\
    (text = name ++ c :: tail \/ text = name ++ colon :: c :: tail).
Proof.
  split.
  - intros [m H]. apply match_here_sound in H.
    destruct H as (rest & -> & H). apply speaker_accepts_form in H.
    destruct H as (name & c & Hn & Hc & [-> | ->]);
      exists name, c, rest; rewrite <- app_assoc; auto.
  - intros (name & c & tail & Hn & Hc & H).
    destruct (speaker_form_accepted name c tail Hn Hc) as [H1 H2].
    destruct H as [-> | ->].
    + apply match_here_complete in H1. now rewrite <- app_assoc in H1.
    + apply match_here_complete in H2. now rewrite <- app_assoc in H2.
Qed.

Lemma upper_not_space (c : ascii) : isupper_AZ c = true -> isspace c = false.
Proof.
  unfold isupper_AZ, isspace, in_range. intros H.
  apply andb_true_iff in H. destruct H as [H1 H2].
  apply N.leb_le in H1. apply N.leb_le in H2.
  repeat rewrite orb_false_iff. repeat split; apply andb_false_iff;
    rewrite !N.leb_gt; lia.
Qed.

Lemma upper_not_colon (c : ascii) : isupper_AZ c = true -> is_char colon c = false.
Proof.
  intros H. destruct (is_char colon c) eqn:E; [|reflexivity].
  apply is_char_eq in E. subst. discriminate.
Qed.

Lemma capitals_spaceless (name : str) : capitals name -> spaceless name.
Proof.
  intros [_ H]. eapply Forall_impl; [|exact H]. apply upper_not_space.
Qed.

Lemma rstrip_colon_capitals (name : str) :
  capitals name ->
  rstrip_char colon name = name /\ rstrip_char colon (name ++ [colon]) = name.
Proof.
  intros [Hne Hup]. destruct (exists_last Hne) as (r & u & ->).
  apply Forall_app in Hup. destruct Hup as [_ Hu]. inversion Hu; subst.
  assert (E : lstrip_char colon (rev (r ++ [u])) = rev (r ++ [u])).
  { rewrite rev_app_distr. cbn [rev app lstrip_char].
    now rewrite upper_not_colon. }
  unfold rstrip_char. split.
  - rewrite E. apply rev_involutive.
  - rewrite (rev_app_distr (r ++ [u]) [colon]).
    cbn [rev app lstrip_char]. rewrite is_char_refl, E. apply rev_involutive.
Qed.

(** The words of a text that has a speaker and no trailing whitespace: the
    speaker token, and at least one more word. *)
Lemma speaker_line_words (text m : str) :
  re_match speaker_pattern text = Some m ->
  (exists r z, text = r ++ [z] /\ isspace z = false) ->
  exists name ws,
    capitals name /\ ws <> [] /\ Forall is_word ws /\
    (split text = name :: ws \/ split text = (name ++ [colon]) :: ws) /\
    speaker_of text = name.
Proof.
  intros Hm (r & z & Hlast & Hz).
  destruct (proj1 (speaker_match_spec text) (ex_intro _ m Hm))
    as (name & c & tail & Hn & Hc & Htext).
  assert (Htail : Exists (fun c => isspace c = false) tail).
  { assert (E : exists pre, text = pre ++ c :: tail).
    { destruct Htext as [-> | ->]; [now exists name|].
      exists (name ++ [colon]). now rewrite <- app_assoc. }
    destruct E as [pre E]. rewrite E in Hlast.
    apply (f_equal (@rev ascii)) in Hlast.
    rewrite !rev_app_distr in Hlast. simpl in Hlast.
    rewrite <- app_assoc in Hlast. simpl in Hlast.
    destruct (rev tail) as [|y ys] eqn:Ety.
    - simpl in Hlast. injection Hlast as -> _. congruence.
    - simpl in Hlast. injection Hlast as -> _.
      apply Exists_exists. exists z. split; [|assumption].
      apply in_rev. rewrite Ety. now left. }
  assert (Hws : split_from [] tail <> []) by (apply split_from_nonempty; auto).
  pose proof (capitals_spaceless name Hn) as Hsp.
  destruct (rstrip_colon_capitals name Hn) as [R1 R2].
  destruct Hn as [Hne Hup].
  exists name, (split tail). split; [now split|]. split; [exact Hws|].
  split; [apply split_words|].
  destruct Htext as [-> | ->].
  - assert (E : split (name ++ c :: tail) = name :: split tail).
    { unfold split. rewrite split_from_app by assumption.
      now apply split_from_space. }
    split; [now left|]. unfold speaker_of. now rewrite E.
  - assert (E : split (name ++ colon :: c :: tail)
                = (name ++ [colon]) :: split tail).
    { unfold split. change (name ++ colon :: c :: tail)
        with (name ++ [colon] ++ c :: tail).
      rewrite app_assoc. rewrite split_from_app.
      - apply split_from_space; [assumption|]. destruct name; discriminate.
      - apply spaceless_app; [assumption|]. now repeat constructor. }
    split; [now right|]. unfold speaker_of. now rewrite E.
Qed.

(** ** [str.replace] *)

Lemma replace_from_skip (old new pre s : str) :
  replace_from old new (length pre) (pre ++ s) = replace_from old new 0 s.
Proof. induction pre as [|c pre IH]; simpl; auto. Qed.

Lemma replace_from_hit (old new s : str) :
  old <> [] ->
  replace_from old new 0 (old ++ s) = new ++ replace_from old new 0 s.
Proof.
  intros Hne. destruct old as [|a old]; [congruence|].
  assert (H : startswith ((a :: old) ++ s) (a :: old) = true)
    by (apply startswith_spec; now exists s).
  cbn [app replace_from] in *. rewrite H. cbn [length Nat.pred].
  now rewrite replace_from_skip.
Qed.

Lemma replace_from_miss (old new s : str) (c : ascii) :
  startswith (c :: s) old = false ->
  replace_from old new 0 (c :: s) = c :: replace_from old new 0 s.
Proof. intros H. cbn [replace_from]. now rewrite H. Qed.

Lemma join_cons (sep p : str) (ps : list str) :
  ps <> [] -> join sep (p :: ps) = p ++ sep ++ join sep ps.
Proof. destruct ps; [congruence | reflexivity]. Qed.

Lemma join_cons_char (sep p : str) (ps : list str) (c : ascii) :
  join sep ((c :: p) :: ps) = c :: join sep (p :: ps).
Proof. destruct ps; reflexivity. Qed.

Lemma join_nil_concat (ps : list str) : join [] ps = concat ps.
Proof.
  induction ps as [|p ps IH]; [reflexivity|].
  destruct ps as [|q ps]; [simpl; now rewrite app_nil_r|].
  rewrite join_cons by discriminate. now rewrite IH.
Qed.

(** The text is cut at the occurrences of [old]; no piece left between two
    cuts contains [old], and the result is the pieces joined by [new]. *)
Lemma replace_from_pieces (old : str) :
  old <> [] ->
  forall n s, (length s <= n)%nat ->
  exists pieces,
    pieces <> [] /\ s = join old pieces /\
    Forall (fun p => contains old p = false) pieces /\
    forall new, replace_from old new 0 s = join new pieces.
Proof.
  intros Hne.
  assert (Hnil : contains old [] = false)
    by (destruct old; [congruence | reflexivity]).
  induction n as [|n IH]; intros s Hlen.
  - destruct s; [|simpl in Hlen; lia].
    exists [[]]. repeat split; [discriminate | now repeat constructor].
  - destruct s as [|c s].
    { exists [[]]. repeat split; [discriminate | now repeat constructor]. }
    destruct (startswith (c :: s) old) eqn:Hst.
    + apply startswith_spec in Hst. destruct Hst as [s' Hs'].
      destruct (IH s') as (ps & Hps & E & Hfree & Hrep).
      { apply (f_equal (@length ascii)) in Hs'. rewrite length_app in Hs'.
        simpl in Hs', Hlen. destruct old; [congruence | simpl in Hs'; lia]. }
      exists ([] :: ps). split; [discriminate|].
      split; [rewrite join_cons by assumption; simpl; congruence|].
      split; [now constructor|].
      intros new. rewrite Hs', replace_from_hit, Hrep by assumption.
      now rewrite join_cons.
    + destruct (IH s) as (ps & Hps & E & Hfree & Hrep);
        [simpl in Hlen; lia|].
      destruct ps as [|p0 ps]; [congruence|].
      exists ((c :: p0) :: ps). split; [discriminate|].
      split; [rewrite join_cons_char; congruence|].
      split.
      * inversion Hfree as [|? ? Hp0 Hps']; subst. constructor; [|assumption].
        cbn [contains]. rewrite Hp0, orb_false_r.
        destruct (startswith (c :: p0) old) eqn:Hst'; [|reflexivity].
        apply startswith_spec in Hst'. destruct Hst' as [x Hx].
        assert (Hc : startswith (c :: join old (p0 :: ps)) old = true).
        { destruct (join_first old p0 ps) as [y ->].
          apply startswith_spec. exists (x ++ y).
          rewrite app_assoc, <- Hx. reflexivity. }
        congruence.
      * intros new. rewrite replace_from_miss, Hrep by assumption.
        now rewrite join_cons_char.
Qed.

Lemma replace_pieces (s old : str) :
  old <> [] ->
  exists pieces,
    s = join old pieces /\
    Forall (fun p => contains old p = false) pieces /\
    forall new, replace s old new = join new pieces.
Proof.
  intros Hne.
  destruct (replace_from_pieces old Hne (length s) s (le_n _))
    as (ps & _ & E & Hfree & Hrep).
  exists ps. repeat split; try assumption.
  intros new. unfold replace. destruct old; [congruence | apply Hrep].
Qed.

Lemma timecode_nonempty (tc : str) : is_timecode tc = true -> tc <> [].
Proof. destruct tc; [discriminate | discriminate]. Qed.

(** C9. When the text begins with a timecode token, the pattern matches the
    longest such token; the text is that timecode joining pieces none of
    which contains it, and the step leaves the pieces, concatenated and
    stripped.  When the text
    does not begin with a timecode token, the step leaves it as it is.  The
    speaker pattern is then applied to the result of this step. *)
Theorem leading_timecode_removed (text : str) :
  (begins_with_timecode_token text ->
   exists tc pieces,
     re_match timecode_pattern text = Some tc /\
     is_timecode tc = true /\
     (exists post, text = tc ++ post /\ delimited [] post) /\
     (forall tc' post',
        text = tc' ++ post' -> is_timecode tc' = true ->
        delimited [] post' -> (length tc' <= length tc)%nat) /\
     text = join tc pieces /\
     Forall (fun piece => contains tc piece = false) pieces /\
     remove_timecode text = strip (concat pieces)) /\
  (~ begins_with_timecode_token text -> remove_timecode text = text) /\
  (forall sep st p,
     strip p = text -> is_segment_marker text = false ->
     skip_pages st = false ->
     process_paragraph sep st p
     = ret (LoopState (segment_count st) false
              (out_table st ++
               match re_match speaker_pattern (remove_timecode text) with
               | Some _ => speaker_rows (speaker_of (remove_timecode text))
                                        (content_of (remove_timecode text))
               | None => plain_rows (remove_timecode text)
               end))).
Proof.
  split; [|split].
  - intros Hb. apply match_timecode_complete in Hb. destruct Hb as [tc Htc].
    destruct (match_timecode_sound text tc Htc) as (post & E & Hform & Hd).
    destruct (replace_pieces text tc (timecode_nonempty tc Hform))
      as (pieces & Hj & Hfree & Hrep).
    exists tc, pieces. split; [exact Htc|]. split; [exact Hform|].
    split; [now exists post|].
    split; [intros tc' post'; now apply match_timecode_longest|].
    split; [exact Hj|]. split; [exact Hfree|].
    unfold remove_timecode, timecode_pattern in *. rewrite Htc.
    now rewrite Hrep, join_nil_concat.
  - intros Hnb. unfold remove_timecode, timecode_pattern.
    destruct (re_match timecode_regex text) as [tc|] eqn:E; [|reflexivity].
    exfalso. apply Hnb. apply match_timecode_sound in E.
    destruct E as (post & E & Hform & Hd). now exists tc, post.
  - intros sep st p <- Hm Hs. rewrite process_other by assumption.
    unfold classify. rewrite Hm.
    now destruct (re_match speaker_pattern _).
Qed.

(** ** [format_02d] *)

Lemma to_int_proper (n : Z) :
  Z.to_int n <> Decimal.Pos Decimal.Nil /\ Z.to_int n <> Decimal.Neg Decimal.Nil.
Proof.
  destruct n as [|p|p]; simpl; split; try discriminate;
    intros H; injection H as H; now apply DecimalPos.Unsigned.to_uint_nonnil in H.
Qed.

Lemma format_02d_length (n : Z) : (2 <= length (format_02d n))%nat.
Proof.
  unfold format_02d.
  destruct (length _ <? 2)%nat eqn:E.
  - destruct (to_int_proper n) as [H1 H2].
    destruct (Z.to_int n) as [d|d]; simpl in *.
    + destruct d; simpl; lia.
    + lia.
  - apply Nat.ltb_ge in E. exact E.
Qed.

(** The numeral [format_02d n] denotes [n]. *)
Lemma format_02d_value (n : Z) : 0 <= n -> decimal_value (format_02d n) = Some n.
Proof.
  intros Hn. unfold format_02d, decimal_value.
  destruct (to_int_proper n) as [H1 H2].
  pose proof (NilZero.isi (Z.to_int n) H1 H2) as Hisi.
  pose proof (DecimalZ.of_to n) as Hof.
  destruct (length _ <? 2)%nat eqn:E.
  - apply Nat.ltb_lt in E.
    destruct (NilZero.string_of_int (Z.to_int n)) as [|c [|c' s]] eqn:Es;
      [discriminate Hisi| |simpl in E; lia].
    cbn [list_ascii_of_string string_of_list_ascii].
    unfold NilZero.int_of_string in *.
    destruct (Ascii.eqb c "-") eqn:Ec; [discriminate Hisi|].
    change (Ascii.eqb "0" "-") with false. cbv iota.
    unfold NilZero.uint_of_string in *.
    cbn [NilEmpty.uint_of_string] in *.
    destruct (uint_of_char c (Some Decimal.Nil)) as [d|] eqn:Ed;
      [|discriminate Hisi].
    simpl in Hisi. injection Hisi as Hisi. rewrite <- Hisi in Hof.
    simpl. f_equal. exact Hof.
  - rewrite string_of_list_ascii_of_string, Hisi. simpl. now f_equal.
Qed.

Lemma format_02d_below_100 :
  forallb (fun k =>
             str_eqb (format_02d (Z.of_nat k))
                     [digit_char (Z.of_nat k / 10);
                      digit_char (Z.of_nat k mod 10)])
          (seq 0 100) = true.
Proof. vm_compute. reflexivity. Qed.

(** Up to 99 the numeral has exactly two digits. *)
Lemma format_02d_two_digits (n : Z) :
  0 <= n <= 99 -> two_digits n (format_02d n).
Proof.
  intros Hn. exists (n / 10), (n mod 10).
  split; [Z.to_euclidean_division_equations; lia|].
  split; [Z.to_euclidean_division_equations; lia|].
  split; [Z.to_euclidean_division_equations; lia|].
  pose proof format_02d_below_100 as H. rewrite forallb_forall in H.
  specialize (H (Z.to_nat n)). rewrite Z2Nat.id in H by lia.
  assert (Hin : In (Z.to_nat n) (seq 0 100)) by (apply in_seq; lia).
  apply H in Hin. unfold str_eqb in Hin.
  now destruct (list_eq_dec ascii_dec _ _).
Qed.

(** ** Speaker lines *)

Lemma remove_timecode_stripped (p : str) :
  remove_timecode (strip p) = [] \/
  exists r z, remove_timecode (strip p) = r ++ [z] /\ isspace z = false.
Proof.
  unfold remove_timecode.
  destruct (re_match timecode_pattern (strip p)); apply strip_last.
Qed.

Lemma words_joined (ws : list str) :
  ws <> [] -> Forall is_word ws -> joined_line (join [space] ws).
Proof. intros Hne Hws. now exists ws. Qed.

(** A speaker line always has content after the speaker token: the token is
    followed by whitespace, and the text does not end in whitespace. *)
Lemma speaker_line_rows (p m : str) :
  re_match speaker_pattern (remove_timecode (strip p)) = Some m ->
  exists name ws first rest,
    capitals name /\ ws <> [] /\
    (split (remove_timecode (strip p)) = name :: ws \/
     split (remove_timecode (strip p)) = (name ++ [colon]) :: ws) /\
    content_of (remove_timecode (strip p)) = join [space] ws /\
    split_text_into_lines (join [space] ws) MAX_LINE_LENGTH = first :: rest /\
    speaker_rows (speaker_of (remove_timecode (strip p)))
                 (content_of (remove_timecode (strip p)))
    = Cells [Run name false red] [Run first false None]
        :: map content_row rest.
Proof.
  intros Hm. set (text := remove_timecode (strip p)) in *.
  assert (Hlast : exists r z, text = r ++ [z] /\ isspace z = false).
  { destruct (remove_timecode_stripped p) as [E|H]; [|exact H].
    fold text in E. rewrite E in Hm. discriminate. }
  destruct (speaker_line_words text m Hm Hlast)
    as (name & ws & Hn & Hws & Hwords & Hsplit & Hsp).
  assert (Htl : tl (split text) = ws) by (destruct Hsplit as [-> | ->]; reflexivity).
  pose proof (words_joined ws Hws Hwords) as Hj.
  assert (Hc : content_of text = join [space] ws).
  { unfold content_of. rewrite Htl. now apply strip_joined. }
  destruct (split_text_into_lines (join [space] ws) MAX_LINE_LENGTH)
    as [|first rest] eqn:El.
  { exfalso. revert El. apply wrap_nonempty.
    rewrite <- (strip_joined _ Hj). apply strip_nonspace.
    rewrite (strip_joined _ Hj). now apply joined_line_nonempty. }
  exists name, ws, first, rest. repeat split; try assumption; try apply Hn.
  unfold speaker_rows. rewrite Hc, El, Hsp. unfold speaker_cell.
  destruct Hn as [Hne _]. destruct name; [congruence | reflexivity].
Qed.

(** ** Segment markers and the counter *)

Lemma count_markers_cons (p : str) (paras : list str) :
  count_markers (p :: paras)
  = (if is_segment_marker (strip p) then 1 else 0) + count_markers paras.
Proof.
  unfold count_markers. simpl.
  destruct (is_segment_marker (strip p)); simpl length; lia.
Qed.

Lemma count_markers_snoc (paras : list str) (p : str) :
  count_markers (paras ++ [p])
  = count_markers paras + (if is_segment_marker (strip p) then 1 else 0).
Proof.
  unfold count_markers. rewrite filter_app, length_app. simpl.
  destruct (is_segment_marker (strip p)); simpl length; lia.
Qed.

Lemma process_paragraph_count (sep : Z) (st : loop_state) (p : str) :
  exists st',
    process_paragraph sep st p = ret st' /\
    segment_count st'
    = segment_count st + (if is_segment_marker (strip p) then 1 else 0).
Proof.
  destruct (is_segment_marker (strip p)) eqn:Hm.
  - destruct (marker_has_timecode _ Hm) as [tc Htc].
    rewrite (process_marker sep st p tc Hm Htc). eexists. split; reflexivity.
  - destruct (skip_pages st) eqn:Hs.
    + rewrite process_skipped by assumption. eexists.
      split; [reflexivity | lia].
    + rewrite process_other by assumption. eexists.
      split; [reflexivity | simpl; lia].
Qed.

Lemma process_paragraphs_count (sep : Z) (paras : list str) : forall st,
  exists st',
    process_paragraphs sep st paras = ret st' /\
    segment_count st' = segment_count st + count_markers paras.
Proof.
  induction paras as [|p paras IH]; intros st.
  - exists st. split; [reflexivity | unfold count_markers; simpl; lia].
  - destruct (process_paragraph_count sep st p) as (st1 & H1 & C1).
    destruct (IH st1) as (st2 & H2 & C2).
    exists st2. simpl. rewrite H1. simpl. split; [exact H2|].
    rewrite count_markers_cons. lia.
Qed.

(** C3. The stripped text of a paragraph contains a timecode token and a
    run of ten dashes if and only if the iteration on it counts a segment
    and appends the full-width row of dashes and then the bold full-width
    header row of a timecode of the text. *)
Theorem segment_marker_treatment (sep : Z) (st : loop_state) (p : str) :
  segment_marker_line (strip p) <->
  exists tc,
    re_search segment_marker_pattern (strip p) = Some tc /\
    is_timecode tc = true /\
    process_paragraph sep st p
    = ret (LoopState (segment_count st + 1) false
             (out_table st ++
              [Merged [Run (times dash sep) false None];
               Merged [Run (segment_text sep tc (segment_count st + 1))
                           true None]])).
Proof.
  split.
  - intros H. apply is_segment_marker_spec in H.
    destruct (marker_has_timecode _ H) as [tc Htc].
    exists tc. split; [exact Htc|]. split.
    + apply search_timecode_sound in Htc. now destruct Htc as (? & ? & ? & ? & ?).
    + now apply process_marker.
  - intros (tc & _ & _ & H). apply is_segment_marker_spec.
    destruct (is_segment_marker (strip p)) eqn:Hm; [reflexivity|].
    exfalso. destruct (process_paragraph_count sep st p) as (st' & H' & C).
    rewrite Hm in C. rewrite H in H'. injection H' as <-. simpl in C. lia.
Qed.

(** C7, as amended.  After any paragraphs the counter is the number of
    segment markers among them; and the marker that comes next, the [n]-th,
    appends the row of dashes and a bold header row made of its timecode,
    the spacing, a space and the decimal numeral of [n] padded with zeros to
    at least two digits: exactly two digits up to 99. *)
Theorem segment_counter_and_header (sep : Z) (paras : list str) :
  exists st,
    process_paragraphs sep loop_init paras = ret st /\
    segment_count st = count_markers paras /\
    forall p,
      segment_marker_line (strip p) ->
      exists tc n,
        re_search segment_marker_pattern (strip p) = Some tc /\
        n = count_markers (paras ++ [p]) /\
        n = count_markers paras + 1 /\
        process_paragraphs sep loop_init (paras ++ [p])
        = ret (LoopState n false
                 (out_table st ++
                  [Merged [Run (times dash sep) false None];
                   Merged [Run (tc ++ times space (sep - len tc - 2 + 26)
                                   ++ [space] ++ format_02d n)
                               true None]])) /\
        decimal_value (format_02d n) = Some n /\
        (2 <= length (format_02d n))%nat /\
        (n <= 99 -> two_digits n (format_02d n)).
Proof.
  destruct (process_paragraphs_count sep paras loop_init) as (st & Hst & Hc).
  simpl in Hc. exists st. split; [exact Hst|]. split; [exact Hc|].
  intros p Hp. apply is_segment_marker_spec in Hp.
  destruct (marker_has_timecode _ Hp) as [tc Htc].
  assert (Hn : count_markers (paras ++ [p]) = count_markers paras + 1)
    by (rewrite count_markers_snoc, Hp; reflexivity).
  assert (Hpos : 0 <= count_markers (paras ++ [p]))
    by (unfold count_markers; lia).
  exists tc, (count_markers (paras ++ [p])).
  split; [exact Htc|]. split; [reflexivity|]. split; [exact Hn|]. split.
  - rewrite (process_paragraphs_app sep paras [p] loop_init st Hst).
    simpl. rewrite (process_marker sep st p tc Hp Htc). simpl.
    rewrite Hn, Hc. reflexivity.
  - split; [now apply format_02d_value|].
    split; [apply format_02d_length|].
    intros H99. apply format_02d_two_digits. lia.
Qed.

Lemma segment_counter_and_header_witness :
  exists st,
    process_paragraphs 104 loop_init [$"intro"; $"0:01 ----------"] = ret st /\
    segment_count st = 1 /\
    exists tc n,
      re_search segment_marker_pattern (strip $" 1:02:03 ---------- ") = Some tc /\
      n = 2 /\
      process_paragraphs 104 loop_init
        ([$"intro"; $"0:01 ----------"] ++ [$" 1:02:03 ---------- "])
      = ret (LoopState n false
               (out_table st ++
                [Merged [Run (times dash 104) false None];
                 Merged [Run (tc ++ times space (104 - len tc - 2 + 26)
                                 ++ [space] ++ format_02d n)
                             true None]])) /\
      two_digits n (format_02d n).
Proof.
  destruct (segment_counter_and_header 104 [$"intro"; $"0:01 ----------"])
    as (st & Hst & Hc & Hnext).
  exists st. split; [exact Hst|]. split; [exact Hc|].
  destruct (Hnext $" 1:02:03 ---------- ") as (tc & n & Htc & Hn & _ & Hp & _ & _ & H2).
  { apply is_segment_marker_spec. reflexivity. }
  exists tc, n. split; [exact Htc|]. split; [rewrite Hn; reflexivity|].
  split; [exact Hp|]. apply H2. rewrite Hn. vm_compute. discriminate.
Defined.

(** C7, as stated, fails at the hundredth marker: its header ends with the
    three digits of 100, and no two digits write 100. *)
Lemma hundredth_header_three_digits :
  last_header (process_paragraphs 104 loop_init
                 (repeat $"0:00 ----------" 100))
  = Some ($"0:00" ++ times space 124 ++ $" 100") /\
  ~ exists s, two_digits 100 s.
Proof.
  split; [vm_compute; reflexivity|].
  intros (s & a & b & Ha & Hb & H & _). lia.
Qed.

(** ** Every paragraph, by kind *)



(** C4.  The line [JOHN:] begins with a token in capitals followed by a
    colon, yet the loop puts the whole line into the content column and
    leaves the speaker column empty. *)
Theorem speaker_only_line_is_plain :
  begins_with_speaker_token $"JOHN:" /\
  forall sep n t,
    process_paragraph sep (LoopState n false t) $"JOHN:"
    = ret (LoopState n false (t ++ [Cells [] [Run $"JOHN:" false None]])).
Proof.
  split.
  - exists $"JOHN", []. split; [discriminate|].
    split; [now repeat constructor|]. split; [now right | exact I].
  - intros sep n t. reflexivity.
Qed.

(** The branch of [emit_speaker] for a speaker without content is never
    taken in the loop. *)
Lemma speaker_only_branch_unreachable (p m : str) :
  re_match speaker_pattern (remove_timecode (strip p)) = Some m ->
  nonempty (content_of (remove_timecode (strip p))) = true.
Proof.
  intros H.
  destruct (speaker_line_rows p m H)
    as (name & ws & first & rest & _ & Hws & Hsplit & Hc & _ & _).
  rewrite Hc. apply joined_line_nonempty.
  assert (Hw : Forall is_word ws).
  { pose proof (split_words (remove_timecode (strip p))) as Hall.
    destruct Hsplit as [E|E]; rewrite E in Hall; now inversion Hall. }
  now apply words_joined.
Qed.

(** ** First wrapped line *)

(** C8. A text with a character that is not whitespace wraps, for every
    [max_length], into at least one line; so whenever the content of a
    speaker line is not empty its first wrapped line exists, and emitting a
    speaker line never raises [IndexError]. *)
Theorem wrapped_lines_nonempty :
  (forall text max_length,
     Exists (fun c => isspace c = false) text ->
     split_text_into_lines text max_length <> []) /\
  (forall line,
     nonempty (content_of line) = true ->
     split_text_into_lines (content_of line) MAX_LINE_LENGTH <> []) /\
  (forall t line, exists t', emit_speaker t line = ret t').
Proof.
  split; [exact wrap_nonempty|]. split.
  - intros line H. apply wrap_nonempty. now apply strip_nonspace.
  - intros t line. rewrite emit_speaker_rows. eauto.
Qed.

Lemma wrapped_lines_nonempty_witness :
  Exists (fun c => isspace c = false) $" a " /\
  split_text_into_lines $" a " (-3) <> [].
Proof.
  assert (H : Exists (fun c => isspace c = false) $" a ").
  { apply Exists_cons_tl. apply Exists_cons_hd. reflexivity. }
  split; [exact H|].
  apply (proj1 wrapped_lines_nonempty $" a " (-3)). exact H.
Defined.

Lemma leading_timecode_removed_witness :
  begins_with_timecode_token $"11:11 11:11:11 HOST: hi" /\
  exists tc pieces,
    re_match timecode_pattern $"11:11 11:11:11 HOST: hi" = Some tc /\
    $"11:11 11:11:11 HOST: hi" = join tc pieces /\
    remove_timecode $"11:11 11:11:11 HOST: hi" = strip (concat pieces).
Proof.
  assert (H : begins_with_timecode_token $"11:11 11:11:11 HOST: hi").
  { exists $"11:11", $" 11:11:11 HOST: hi". repeat split; reflexivity. }
  split; [exact H|].
  destruct (proj1 (leading_timecode_removed $"11:11 11:11:11 HOST: hi") H)
    as (tc & pieces & Htc & _ & _ & _ & Hj & _ & Hr).
  exists tc, pieces. repeat split; assumption.
Defined.

(** ** [process_docx] *)

Lemma endswith_app (s p : str) : endswith (s ++ p) p = true.
Proof.
  unfold endswith. rewrite rev_app_distr. apply startswith_spec.
  now exists (rev s).
Qed.

Lemma docx_path_ends (output_file : str) :
  endswith (docx_path output_file) $".docx" = true.
Proof.
  unfold docx_path. destruct (endswith output_file $".docx") eqn:E;
    [exact E | apply endswith_app].
Qed.

Section ProcessDocxFacts.
Variable world : Type.
Variable path_exists : world -> str -> bool.
Variable Document : world -> str -> result (list str).
Variable save : world -> str -> table -> result unit * world.
Variable sep : Z.

Lemma process_docx_missing (w : world) (input output : str) :
  path_exists w input = false ->
  process_docx world path_exists Document save sep w input output
  = (raise (FileNotFoundError (not_found_message input)), w).
Proof. intros H. unfold process_docx. now rewrite H. Qed.

Lemma process_docx_unreadable (w : world) (input output : str) (e : exn) :
  path_exists w input = true -> Document w input = inl e ->
  process_docx world path_exists Document save sep w input output
  = (inl e, w).
Proof. intros H1 H2. unfold process_docx. now rewrite H1, H2. Qed.

Lemma process_docx_read (w : world) (input output : str)
  (paras : list str) :
  path_exists w input = true -> Document w input = inr paras ->
  exists st,
    process_paragraphs sep loop_init paras = ret st /\
    process_docx world path_exists Document save sep w input output
    = (match fst (save w (docx_path output) (out_table st)) with
       | inl e => inl e
       | inr _ => inr (docx_path output)
       end,
       snd (save w (docx_path output) (out_table st))).
Proof.
  intros H1 H2.
  destruct (process_paragraphs_total sep paras loop_init) as [st Hst].
  exists st. split; [exact Hst|].
  unfold process_docx. rewrite H1, H2. simpl. rewrite Hst.
  unfold ret. cbv beta iota zeta.
  destruct (save w (docx_path output) (out_table st)) as [[e|u] w'];
    reflexivity.
Qed.

(** C5, as amended.  When the input path does not exist, [process_docx]
    raises its own [FileNotFoundError] before it calls the document
    library: whatever the library would do, the world is unchanged.  When
    the path exists, what the library's load raises goes to the caller as it
    is, with the world unchanged, and so does what its save raises, a
    [FileNotFoundError] included, with the world as the save left it; if
    neither raises, the completed path is returned.  So [process_docx]
    raises exactly when the input is missing or the library raises, and if
    the library's own load and save raise no [FileNotFoundError], a
    [FileNotFoundError] is raised exactly when the input path does not
    exist. *)
Theorem missing_input_check (w : world) (input output : str) :
  (path_exists w input = false ->
   process_docx world path_exists Document save sep w input output
   = (raise (FileNotFoundError (not_found_message input)), w)) /\
  (forall e,
     path_exists w input = true -> Document w input = inl e ->
     process_docx world path_exists Document save sep w input output
     = (inl e, w)) /\
  (forall paras,
     path_exists w input = true -> Document w input = inr paras ->
     exists st,
       process_paragraphs sep loop_init paras = ret st /\
       (forall e,
          fst (save w (docx_path output) (out_table st)) = inl e ->
          process_docx world path_exists Document save sep w input output
          = (inl e, snd (save w (docx_path output) (out_table st)))) /\
       (forall u,
          fst (save w (docx_path output) (out_table st)) = inr u ->
          process_docx world path_exists Document save sep w input output
          = (ret (docx_path output),
             snd (save w (docx_path output) (out_table st))))) /\
  ((forall msg, Document w input <> raise (FileNotFoundError msg)) ->
   (forall t msg,
      fst (save w (docx_path output) t) <> raise (FileNotFoundError msg)) ->
   ((exists msg,
       fst (process_docx world path_exists Document save sep w input output)
       = raise (FileNotFoundError msg))
    <-> path_exists w input = false)).
Proof.
  split; [|split; [|split]].
  - apply process_docx_missing.
  - apply process_docx_unreadable.
  - intros paras Hex Hdoc.
    destruct (process_docx_read w input output paras Hex Hdoc)
      as (st & Hst & Hrun).
    exists st. split; [exact Hst|].
    split; intros x Hx; rewrite Hrun, Hx; reflexivity.
  - intros Hload Hsave. split.
    + intros [msg H]. destruct (path_exists w input) eqn:Hex; [|reflexivity].
      exfalso. destruct (Document w input) as [e|paras] eqn:Hdoc.
      * rewrite (process_docx_unreadable w input output e Hex Hdoc) in H.
        simpl in H. unfold raise in H. injection H as ->.
        now apply (Hload msg).
      * destruct (process_docx_read w input output paras Hex Hdoc)
          as (st & _ & Hrun).
        rewrite Hrun in H. simpl in H.
        apply (Hsave (out_table st) msg).
        destruct (fst (save w (docx_path output) (out_table st)));
          [|discriminate].
        unfold raise in H. now injection H as ->.
    + intros Hex. rewrite process_docx_missing by exact Hex. simpl. eauto.
Qed.

(** C10. When the input exists, loads, and the save succeeds,
    [process_docx] saves the table of the processed paragraphs under
    [output_file] itself if that ends with [.docx] and under
    [output_file] with [.docx] appended otherwise, and returns that
    path, which ends with [.docx]. *)
Theorem saved_path_ends_with_docx (w : world) (input output : str)
  (paras : list str) :
  path_exists w input = true ->
  Document w input = inr paras ->
  (forall t, fst (save w (docx_path output) t) = ret tt) ->
  exists st,
    process_paragraphs sep loop_init paras = ret st /\
    process_docx world path_exists Document save sep w input output
    = (ret (docx_path output),
       snd (save w (docx_path output) (out_table st))) /\
    docx_path output
    = (if endswith output $".docx" then output else output ++ $".docx") /\
    endswith (docx_path output) $".docx" = true.
Proof.
  intros Hex Hdoc Hsave.
  destruct (process_docx_read w input output paras Hex Hdoc)
    as (st & Hst & Hrun).
  exists st. split; [exact Hst|]. split.
  - rewrite Hrun, Hsave. reflexivity.
  - split; [reflexivity | apply docx_path_ends].
Qed.
End ProcessDocxFacts.

Lemma missing_input_check_witness :
  process_docx disk disk_exists disk_Document flat_save 104
    demo_disk $"gone.docx" $"out"
  = (raise (FileNotFoundError $"Input file 'gone.docx' not found."),
     demo_disk) /\
  (exists st,
     process_paragraphs 104 loop_init
       [$"Title page"; $"0:00 ----------"; $"HOST: welcome"] = ret st /\
     process_docx disk disk_exists disk_Document flat_save 104
       demo_disk $"in.docx" $"reports/out"
     = (raise (FileNotFoundError
                 $"No such file or directory: reports/out.docx"),
        demo_disk) /\
     process_docx disk disk_exists disk_Document flat_save 104
       demo_disk $"in.docx" $"out"
     = (ret $"out.docx",
        Disk (inputs demo_disk) [($"out.docx", out_table st)])) /\
  ((exists msg,
      fst (process_docx disk disk_exists disk_Document easy_save 104
             demo_disk $"gone.docx" $"out")
      = raise (FileNotFoundError msg))
   <-> disk_exists demo_disk $"gone.docx" = false).
Proof.
  split; [|split].
  - exact (proj1 (missing_input_check disk disk_exists disk_Document
                    flat_save 104 demo_disk $"gone.docx" $"out") eq_refl).
  - destruct (proj1 (proj2 (proj2
               (missing_input_check disk disk_exists disk_Document
                  flat_save 104 demo_disk $"in.docx" $"reports/out")))
               [$"Title page"; $"0:00 ----------"; $"HOST: welcome"]
               eq_refl eq_refl) as (st & Hst & Hraise & _).
    destruct (proj1 (proj2 (proj2
               (missing_input_check disk disk_exists disk_Document
                  flat_save 104 demo_disk $"in.docx" $"out")))
               [$"Title page"; $"0:00 ----------"; $"HOST: welcome"]
               eq_refl eq_refl) as (st' & Hst' & _ & Hok).
    rewrite Hst in Hst'. injection Hst' as <-.
    exists st. split; [exact Hst|]. split.
    + exact (Hraise _ eq_refl).
    + exact (Hok tt eq_refl).
  - apply (proj2 (proj2 (proj2
             (missing_input_check disk disk_exists disk_Document easy_save
                104 demo_disk $"gone.docx" $"out")))).
    + intros msg H. cbv in H. discriminate H.
    + intros t msg H. cbv in H. discriminate H.
Defined.

(** C5, as stated, fails when the input exists and the save cannot open its
    path: the exception is a [FileNotFoundError] all the same. *)
Lemma save_raises_file_not_found :
  disk_exists demo_disk $"in.docx" = true /\
  process_docx disk disk_exists disk_Document flat_save 104
    demo_disk $"in.docx" $"reports/out"
  = (raise (FileNotFoundError
              $"No such file or directory: reports/out.docx"),
     demo_disk).
Proof. split; vm_compute; reflexivity. Qed.

Lemma saved_path_ends_with_docx_witness :
  exists st,
    process_paragraphs 104 loop_init
      [$"Title page"; $"0:00 ----------"; $"HOST: welcome"] = ret st /\
    process_docx disk disk_exists disk_Document easy_save 104
      demo_disk $"in.docx" $"out"
    = (ret $"out.docx",
       Disk (inputs demo_disk) [($"out.docx", out_table st)]) /\
    endswith $"out.docx" $".docx" = true.
Proof.
  destruct (saved_path_ends_with_docx disk disk_exists disk_Document
              easy_save 104 demo_disk $"in.docx" $"out"
              [$"Title page"; $"0:00 ----------"; $"HOST: welcome"]
              eq_refl eq_refl (fun t => eq_refl))
    as (st & Hst & Hrun & _ & Hend).
  exists st. split; [exact Hst|]. split; [exact Hrun | exact Hend].
Defined.

(** ** Sample runs *)

Example wrap_nine :
  split_text_into_lines $"the quick brown fox" 9
  = [$"the quick"; $"brown fox"].
Proof. reflexivity. Qed.

Example wrap_long_word :
  split_text_into_lines $"abcdef gh" 2 = [$"abcdef"; $"gh"].
Proof. reflexivity. Qed.

Example replace_overlapping :
  replace $"11:11 11:11:11" $"11:11" [] = $" :11".
Proof. reflexivity. Qed.

Example search_needs_boundary :
  re_search timecode_regex $"123:45 ----------" = None.
Proof. reflexivity. Qed.

Example sample_table :
  process_paragraphs 10 loop_init
    [$"cover"; $" 0:01 ---------- "; $"0:02 JOHN: hello there"; $""; $"note"]
  = ret (LoopState 1 false
           [Merged [Run $"----------" false None];
            Merged [Run ($"0:01" ++ times space 30 ++ $" 01") true None];
            Cells [Run $"JOHN" false red] [Run $"hello there" false None];
            Cells [] [Run $"note" false None]]).
Proof. vm_compute. reflexivity. Qed.

(** * Further properties of the code *)

(** ** Wrapping: empty results, clean lines, long words *)

Lemma split_from_blank (s : str) :
  Forall (fun c => isspace c = true) s -> split_from [] s = [].
Proof.
  induction 1 as [|c s Hc _ IH]; simpl; [reflexivity|]. now rewrite Hc.
Qed.

Lemma blank_or_not (s : str) :
  Forall (fun c => isspace c = true) s \/
  Exists (fun c => isspace c = false) s.
Proof.
  induction s as [|c s [IH|IH]].
  - left. constructor.
  - destruct (isspace c) eqn:Hc; [left; now constructor | right; now left].
  - right. now right.
Qed.

(** X1. [split_text_into_lines] returns the empty list exactly for a text
    made of whitespace only, the empty text included. *)
Theorem wrapped_lines_empty_iff (text : str) (max_length : Z) :
  split_text_into_lines text max_length = [] <->
  Forall (fun c => isspace c = true) text.
Proof.
  split.
  - intros H. destruct (blank_or_not text) as [Hb|Hn]; [exact Hb|].
    exfalso. revert H. now apply wrap_nonempty.
  - intros H. unfold split_text_into_lines, split.
    now rewrite split_from_blank.
Qed.

(** X2. A returned line is never empty, has no whitespace at either end,
    and its words are separated by exactly one space. *)
Theorem wrapped_lines_clean (text : str) (max_length : Z) :
  Forall (fun l => l <> [] /\ strip l = l /\ join [space] (split l) = l)
         (split_text_into_lines text max_length).
Proof.
  eapply Forall_impl; [|apply wrapped_lines_joined].
  intros l Hl. split; [|split].
  - pose proof (joined_line_nonempty l Hl). now destruct l.
  - now apply strip_joined.
  - destruct Hl as (ws & _ & Hws & ->). now rewrite split_join.
Qed.

Lemma word_alone (w : str) : join [space] [w] = w.
Proof. reflexivity. Qed.

Lemma flush_any (m : Z) (words : list str) (st : wrap_state) :
  wrap_inv_any m words st ->
  Forall (fits_or_single m words) (flush (lines st) (current_line st)).
Proof.
  intros [Hl _ _ Hc]. unfold flush.
  destruct (current_line st) as [|w cur]; [assumption|].
  apply Forall_app. split; [assumption|]. constructor; [|constructor].
  destruct Hc as [Hc|Hc]; [discriminate | exact Hc].
Qed.

Lemma wrap_word_any (m : Z) (words : list str) (st : wrap_state) (w : str) :
  is_word w -> In w words ->
  wrap_inv_any m words st -> wrap_inv_any m words (wrap_word m st w).
Proof.
  intros Hw Hin Hinv. pose proof (flush_any m words st Hinv) as Hflush.
  destruct Hinv as [Hl Hws Hlen Hc]. unfold wrap_word.
  destruct (current_length st + len w + _ <=? m) eqn:Hfit.
  - apply Z.leb_le in Hfit.
    assert (E : current_length st
                + (len w + (if 0 <? current_length st then 1 else 0))
                = len (join [space] (current_line st ++ [w]))).
    { destruct (current_line st) as [|a cur] eqn:Ecur.
      - simpl in Hlen. rewrite Hlen. change (len []) with 0. simpl. lia.
      - rewrite join_snoc by discriminate. rewrite !len_app.
        assert (0 < current_length st) as Hpos.
        { rewrite Hlen. apply len_pos. apply join_nonempty;
            [discriminate | assumption]. }
        apply Z.ltb_lt in Hpos. rewrite Hpos.
        change (len [space]) with 1. lia. }
    constructor; simpl.
    + assumption.
    + apply Forall_app. split; [assumption | now constructor].
    + exact E.
    + right. left. rewrite <- E. lia.
  - constructor; simpl.
    + assumption.
    + now constructor.
    + reflexivity.
    + right. destruct (Z.le_gt_cases (len w) m) as [Hle|Hgt].
      * now left.
      * right. split; [assumption | lia].
Qed.

Lemma wrap_fold_any (m : Z) (words ws : list str) (st : wrap_state) :
  Forall is_word ws -> incl ws words ->
  wrap_inv_any m words st ->
  wrap_inv_any m words (fold_left (wrap_word m) ws st).
Proof.
  revert st. induction ws as [|w ws IH]; intros st Hws Hincl Hinv; simpl.
  - assumption.
  - inversion Hws; subst. apply IH; [assumption| |].
    + intros x Hx. apply Hincl. now right.
    + apply wrap_word_any; [assumption | apply Hincl; now left | assumption].
Qed.

(** X3. With no assumption on the words, every returned line either fits in
    [max_length] or is a single word of the text that is itself longer than
    [max_length]: words are never broken and an overlong word gets a line of
    its own. *)
Theorem wrapped_lines_fit_or_single (text : str) (max_length : Z) :
  Forall (fun l => len l <= max_length \/
                   (In l (split text) /\ max_length < len l))
         (split_text_into_lines text max_length).
Proof.
  unfold split_text_into_lines.
  apply (flush_any max_length (split text)).
  apply wrap_fold_any; [apply split_words | apply incl_refl|].
  constructor; simpl; try constructor. reflexivity.
Qed.

(** ** Wrapping is greedy *)

Lemma joined_length_snoc (cur : list str) (w : str) (n : Z) :
  Forall is_word cur -> n = len (join [space] cur) ->
  n + (len w + (if 0 <? n then 1 else 0)) = len (join [space] (cur ++ [w])).
Proof.
  intros Hws Hn. destruct cur as [|a cur].
  - simpl in Hn. subst n. change (len []) with 0. simpl. lia.
  - rewrite join_snoc by discriminate. rewrite !len_app.
    assert (0 < n) as Hpos.
    { subst n. apply len_pos. apply join_nonempty;
        [discriminate | assumption]. }
    apply Z.ltb_lt in Hpos. rewrite Hpos. change (len [space]) with 1. lia.
Qed.

Lemma breaks_forced_last (m : Z) (l l' : str) : forall ls,
  hd [] (split l') = hd [] (split l) ->
  breaks_forced m (ls ++ [l]) -> breaks_forced m (ls ++ [l']).
Proof.
  intros ls Hhd. induction ls as [|a ls IH]; [trivial|].
  destruct ls as [|b ls].
  - simpl. rewrite Hhd. trivial.
  - intros [H1 H2]. split; [exact H1 | now apply IH].
Qed.

Lemma breaks_forced_snoc (m : Z) (l1 l2 : str) : forall ls,
  m < len l1 + 1 + len (hd [] (split l2)) ->
  breaks_forced m (ls ++ [l1]) -> breaks_forced m ((ls ++ [l1]) ++ [l2]).
Proof.
  intros ls Hgap. induction ls as [|a ls IH].
  - intros _. simpl. now split.
  - destruct ls as [|b ls].
    + intros [H1 _]. simpl. repeat split; assumption.
    + intros [H1 H2]. split; [exact H1 | now apply IH].
Qed.

Lemma split_word_alone (w : str) : is_word w -> split w = [w].
Proof. intros Hw. apply (split_join [w]). now constructor. Qed.

Lemma wrap_word_greedy (m : Z) (st : wrap_state) (w : str) :
  is_word w -> wrap_inv_greedy m st -> wrap_inv_greedy m (wrap_word m st w).
Proof.
  intros Hw [Hb Hl Hws Hlen Hfirst]. unfold wrap_word.
  destruct (current_length st + len w + _ <=? m) eqn:Hfit.
  - constructor; simpl.
    + destruct (current_line st) as [|a cur] eqn:Ecur.
      * rewrite (Hfirst eq_refl). exact I.
      * change (flush (lines st) ((a :: cur) ++ [w]))
          with (lines st ++ [join [space] ((a :: cur) ++ [w])]).
        apply (breaks_forced_last m (join [space] (a :: cur))); [|exact Hb].
        rewrite !split_join; [reflexivity | assumption|].
        apply Forall_app. split; [assumption | now constructor].
    + assumption.
    + apply Forall_app. split; [assumption | now constructor].
    + now apply joined_length_snoc.
    + intros E. now destruct (current_line st).
  - apply Z.leb_gt in Hfit. constructor; simpl.
    + destruct (current_line st) as [|a cur] eqn:Ecur.
      * rewrite (Hfirst eq_refl). exact I.
      * change (flush (flush (lines st) (a :: cur)) [w])
          with ((lines st ++ [join [space] (a :: cur)]) ++ [w]).
        apply breaks_forced_snoc; [|exact Hb].
        rewrite split_word_alone by assumption. simpl hd.
        assert (0 < current_length st) as Hpos.
        { rewrite Hlen. apply len_pos. apply join_nonempty;
            [discriminate | assumption]. }
        apply Z.ltb_lt in Hpos. rewrite Hpos in Hfit. lia.
    + now apply flush_joined.
    + now constructor.
    + reflexivity.
    + discriminate.
Qed.

Lemma wrap_fold_greedy (m : Z) (ws : list str) (st : wrap_state) :
  Forall is_word ws -> wrap_inv_greedy m st ->
  wrap_inv_greedy m (fold_left (wrap_word m) ws st).
Proof.
  revert st. induction ws as [|w ws IH]; intros st Hws Hinv; simpl.
  - assumption.
  - inversion Hws; subst. apply IH; [assumption|].
    now apply wrap_word_greedy.
Qed.

(** X4. Wrapping is greedy: wherever one returned line follows another, the
    first word of the second, after a space, would not have fitted at the
    end of the first. *)
Theorem wrapped_lines_greedy (text : str) (max_length : Z) :
  breaks_forced max_length (split_text_into_lines text max_length).
Proof.
  unfold split_text_into_lines.
  apply (greedy_breaks max_length).
  apply wrap_fold_greedy; [apply split_words|].
  constructor; simpl; try constructor; reflexivity.
Qed.

(** ** Wrapping again *)

Lemma join_app (sep : str) (a b : list str) :
  a <> [] -> b <> [] -> join sep (a ++ b) = join sep a ++ sep ++ join sep b.
Proof.
  intros Ha Hb. induction a as [|x a IH]; [congruence|].
  destruct a as [|y a].
  - simpl app. now rewrite join_cons.
  - change ((x :: y :: a) ++ b) with (x :: (y :: a) ++ b).
    rewrite join_cons by discriminate. rewrite IH by discriminate.
    rewrite (join_cons sep x (y :: a)) by discriminate.
    now rewrite <- !app_assoc.
Qed.

Lemma join_join (sep : str) (wl : list (list str)) :
  Forall (fun ws => ws <> []) wl ->
  join sep (map (join sep) wl) = join sep (concat wl).
Proof.
  induction 1 as [|ws wl Hws Hwl IH]; [reflexivity|].
  destruct wl as [|ws' wl].
  - simpl. now rewrite app_nil_r.
  - change (map (join sep) (ws :: ws' :: wl))
      with (join sep ws :: map (join sep) (ws' :: wl)).
    rewrite join_cons by discriminate. rewrite IH.
    change (concat (ws :: ws' :: wl)) with (ws ++ concat (ws' :: wl)).
    rewrite join_app; [reflexivity | assumption|].
    inversion Hwl; subst. simpl. destruct ws'; [congruence | discriminate].
Qed.

Lemma joined_lines_words (ls : list str) :
  Forall joined_line ls ->
  split (join [space] ls) = concat (map split ls).
Proof.
  intros Hls.
  assert (E : ls = map (join [space]) (map split ls)).
  { induction Hls as [|l ls (ws & _ & Hws & ->) _ IH]; [reflexivity|].
    simpl. rewrite split_join by assumption. now rewrite <- IH. }
  rewrite E at 1. rewrite join_join.
  - apply split_join. apply Forall_concat. apply Forall_map.
    eapply Forall_impl; [|exact Hls]. intros l _. apply split_words.
  - apply Forall_map. eapply Forall_impl; [|exact Hls].
    intros l (ws & Hne & Hws & ->). now rewrite split_join.
Qed.

(** X5. Joining the returned lines with spaces gives a text with the same
    words as the original, and wrapping that text again at the same width
    returns the same lines. *)
Theorem wrapping_again_changes_nothing (text : str) (max_length : Z) :
  split (join [space] (split_text_into_lines text max_length)) = split text /\
  split_text_into_lines
    (join [space] (split_text_into_lines text max_length)) max_length
  = split_text_into_lines text max_length.
Proof.
  assert (E : split (join [space] (split_text_into_lines text max_length))
              = split text).
  { rewrite joined_lines_words by apply wrapped_lines_joined.
    unfold split_text_into_lines.
    destruct (wrap_fold_words max_length (split text) wrap_init
                (split_words text) (Forall_nil _)) as [Hcur Heq].
    rewrite flush_words by exact Hcur. exact Heq. }
  split; [exact E|].
  unfold split_text_into_lines at 1. rewrite E. reflexivity.
Qed.

(** ** The table as a whole *)

Lemma count_markers_nonneg (paras : list str) : 0 <= count_markers paras.
Proof. unfold count_markers. lia. Qed.

Lemma process_no_marker (sep : Z) (paras : list str) :
  count_markers paras = 0 ->
  process_paragraphs sep loop_init paras = ret loop_init.
Proof.
  induction paras as [|p paras IH]; intros H; [reflexivity|].
  rewrite count_markers_cons in H.
  pose proof (count_markers_nonneg paras).
  destruct (is_segment_marker (strip p)) eqn:Hm; [lia|].
  simpl. rewrite process_skipped by (assumption || reflexivity).
  simpl. apply IH. lia.
Qed.

Lemma process_paragraph_started (sep : Z) (st : loop_state) (p : str) :
  started sep st \/ is_segment_marker (strip p) = true /\ out_table st = [] ->
  exists st', process_paragraph sep st p = ret st' /\ started sep st'.
Proof.
  intros H. destruct (is_segment_marker (strip p)) eqn:Hm.
  - destruct (marker_has_timecode _ Hm) as [tc Htc].
    rewrite (process_marker sep st p tc Hm Htc). eexists.
    split; [reflexivity|]. split; [reflexivity|]. simpl.
    unfold marker_rows.
    destruct H as [[_ [rest ->]]|[_ ->]]; simpl; eauto.
  - destruct H as [[Hs [rest Ht]]|[H _]]; [|discriminate].
    rewrite process_other by assumption. eexists.
    split; [reflexivity|]. split; [reflexivity|]. simpl.
    rewrite Ht. simpl. eauto.
Qed.

Lemma process_paragraphs_started (sep : Z) (paras : list str) : forall st,
  started sep st ->
  exists st', process_paragraphs sep st paras = ret st' /\ started sep st'.
Proof.
  induction paras as [|p paras IH]; intros st H; simpl; [eauto|].
  destruct (process_paragraph_started sep st p (or_introl H))
    as (st1 & -> & H1). simpl. now apply IH.
Qed.

(** X6. A document without a segment marker leaves the table empty; with
    one, the table begins with the row of dashes of the first marker. *)
Theorem table_begins_at_first_marker (sep : Z) (paras : list str) :
  exists st,
    process_paragraphs sep loop_init paras = ret st /\
    (count_markers paras = 0 -> st = loop_init /\ out_table st = []) /\
    (0 < count_markers paras ->
     skip_pages st = false /\
     exists rest,
       out_table st = Merged [Run (times dash sep) false None] :: rest).
Proof.
  induction paras as [|p paras IH] using rev_ind.
  - exists loop_init. split; [reflexivity|]. split; [now split|].
    unfold count_markers. simpl. lia.
  - destruct IH as (st & Hst & H0 & H1).
    rewrite (process_paragraphs_app sep paras [p] loop_init st Hst).
    rewrite count_markers_snoc. pose proof (count_markers_nonneg paras).
    assert (Hcases : count_markers paras = 0 \/ 0 < count_markers paras)
      by lia.
    simpl. destruct Hcases as [Hz|Hp].
    + destruct (H0 Hz) as [-> _].
      destruct (is_segment_marker (strip p)) eqn:Hm.
      * destruct (process_paragraph_started sep loop_init p)
          as (st1 & -> & Hs1); [right; now split|].
        exists st1. split; [reflexivity|]. split; [lia|]. intros _. exact Hs1.
      * rewrite process_skipped by (assumption || reflexivity).
        exists loop_init. split; [reflexivity|]. split; [now split | lia].
    + destruct (process_paragraph_started sep st p (or_introl (H1 Hp)))
        as (st1 & -> & Hs1).
      exists st1. split; [reflexivity|].
      split; [destruct (is_segment_marker (strip p)); lia|].
      intros _. exact Hs1.
Qed.

(** X7. Whatever precedes the first segment marker has no effect: the
    result is that of the document without those paragraphs. *)
Theorem pages_before_first_marker_dropped
  (sep : Z) (pages rest : list str) :
  count_markers pages = 0 ->
  process_paragraphs sep loop_init (pages ++ rest)
  = process_paragraphs sep loop_init rest.
Proof.
  intros H. apply process_paragraphs_app. now apply process_no_marker.
Qed.

Lemma pages_before_first_marker_dropped_witness :
  count_markers [$"Cover"; $"ANNA: 12:30 soon"] = 0 /\
  process_paragraphs 104 loop_init
    ([$"Cover"; $"ANNA: 12:30 soon"] ++ [$"0:01 ----------"; $"ANNA: hi"])
  = process_paragraphs 104 loop_init [$"0:01 ----------"; $"ANNA: hi"].
Proof.
  assert (H : count_markers [$"Cover"; $"ANNA: 12:30 soon"] = 0)
    by reflexivity.
  split; [exact H|].
  apply (pages_before_first_marker_dropped 104
           [$"Cover"; $"ANNA: 12:30 soon"]
           [$"0:01 ----------"; $"ANNA: hi"] H).
Defined.

Lemma merged_rows_app (t rows : table) :
  length (filter is_merged (t ++ rows))
  = (length (filter is_merged t) + length (filter is_merged rows))%nat.
Proof. now rewrite filter_app, length_app. Qed.

Lemma content_rows_not_merged (ls : list str) :
  filter is_merged (map content_row ls) = [].
Proof. induction ls; [reflexivity | exact IHls]. Qed.

Lemma speaker_rows_not_merged (speaker content : str) :
  filter is_merged (speaker_rows speaker content) = [].
Proof.
  unfold speaker_rows. destruct (split_text_into_lines _ _); [reflexivity|].
  simpl. apply content_rows_not_merged.
Qed.

Lemma plain_rows_not_merged (text : str) :
  filter is_merged (plain_rows text) = [].
Proof. unfold plain_rows. now destruct (nonempty text). Qed.

Lemma process_paragraph_merged (sep : Z) (st : loop_state) (p : str) :
  exists st',
    process_paragraph sep st p = ret st' /\
    Z.of_nat (length (filter is_merged (out_table st')))
    = Z.of_nat (length (filter is_merged (out_table st)))
      + 2 * (segment_count st' - segment_count st).
Proof.
  destruct (is_segment_marker (strip p)) eqn:Hm.
  - destruct (marker_has_timecode _ Hm) as [tc Htc].
    rewrite (process_marker sep st p tc Hm Htc). eexists.
    split; [reflexivity|]. cbn [out_table segment_count].
    rewrite merged_rows_app. unfold marker_rows. cbn [filter is_merged length].
    lia.
  - destruct (skip_pages st) eqn:Hs.
    + rewrite process_skipped by assumption. eexists.
      split; [reflexivity | lia].
    + rewrite process_other by assumption. eexists.
      split; [reflexivity|]. cbn [out_table segment_count].
      rewrite merged_rows_app.
      destruct (classify (strip p));
        rewrite ?speaker_rows_not_merged, ?plain_rows_not_merged;
        cbn [length]; lia.
Qed.

Lemma process_paragraphs_merged (sep : Z) (paras : list str) : forall st,
  exists st',
    process_paragraphs sep st paras = ret st' /\
    Z.of_nat (length (filter is_merged (out_table st')))
    = Z.of_nat (length (filter is_merged (out_table st)))
      + 2 * (segment_count st' - segment_count st).
Proof.
  induction paras as [|p paras IH]; intros st; cbn [process_paragraphs].
  - exists st. split; [reflexivity | lia].
  - destruct (process_paragraph_merged sep st p) as (st1 & -> & H1).
    destruct (IH st1) as (st2 & H2 & H3).
    exists st2. split; [exact H2 | lia].
Qed.

(** X8. The table holds exactly two full-width rows per segment marker of
    the document: no other paragraph adds a full-width row, and no marker
    adds anything else. *)
Theorem two_full_width_rows_per_marker (sep : Z) (paras : list str) :
  exists st,
    process_paragraphs sep loop_init paras = ret st /\
    Z.of_nat (length (filter is_merged (out_table st)))
    = 2 * count_markers paras /\
    segment_count st = count_markers paras.
Proof.
  destruct (process_paragraphs_merged sep paras loop_init) as (st & Hst & Hm).
  destruct (process_paragraphs_count sep paras loop_init) as (st' & Hst' & Hc).
  rewrite Hst in Hst'. injection Hst' as <-.
  exists st. split; [exact Hst|].
  unfold loop_init in Hm, Hc.
  cbn [out_table segment_count filter length] in Hm, Hc. split; lia.
Qed.

(** ** The rows of the table *)

Lemma marker_rows_well_formed (sep : Z) (tc : str) (n : Z) :
  Forall well_formed_row (marker_rows sep tc n).
Proof. repeat constructor; simpl; eauto. Qed.

Lemma plain_rows_well_formed (text : str) :
  Forall well_formed_row (plain_rows text).
Proof.
  unfold plain_rows. destruct text as [|c text]; simpl; constructor;
    [|constructor].
  split; [now left|]. eexists. split; [|reflexivity]. discriminate.
Qed.

Lemma content_rows_well_formed (ls : list str) :
  Forall joined_line ls -> Forall well_formed_row (map content_row ls).
Proof.
  intros H. apply Forall_map. eapply Forall_impl; [|exact H].
  intros l Hl. split; [now left|]. exists l. split; [|reflexivity].
  pose proof (joined_line_nonempty l Hl). now destruct l.
Qed.

Lemma speaker_rows_well_formed (p m : str) :
  re_match speaker_pattern (remove_timecode (strip p)) = Some m ->
  Forall well_formed_row
    (speaker_rows (speaker_of (remove_timecode (strip p)))
                  (content_of (remove_timecode (strip p)))).
Proof.
  intros Hm.
  destruct (speaker_line_rows p m Hm)
    as (name & ws & first & rest & Hn & _ & _ & _ & Hlines & ->).
  pose proof (wrapped_lines_joined (join [space] ws) MAX_LINE_LENGTH) as Hj.
  rewrite Hlines in Hj. inversion Hj as [|? ? Hfirst Hrest]; subst.
  constructor; [|now apply content_rows_well_formed].
  split; [right; now exists name|]. exists first. split; [|reflexivity].
  pose proof (joined_line_nonempty first Hfirst). now destruct first.
Qed.

Lemma process_paragraph_well_formed (sep : Z) (st : loop_state) (p : str) :
  Forall well_formed_row (out_table st) ->
  exists st',
    process_paragraph sep st p = ret st' /\
    Forall well_formed_row (out_table st').
Proof.
  intros Hwf. destruct (is_segment_marker (strip p)) eqn:Hm.
  - destruct (marker_has_timecode _ Hm) as [tc Htc].
    rewrite (process_marker sep st p tc Hm Htc). eexists.
    split; [reflexivity|]. simpl. apply Forall_app.
    split; [assumption | apply marker_rows_well_formed].
  - destruct (skip_pages st) eqn:Hs.
    + rewrite process_skipped by assumption. eauto.
    + rewrite process_other by assumption. eexists.
      split; [reflexivity|]. simpl. apply Forall_app. split; [assumption|].
      unfold classify. rewrite Hm.
      destruct (re_match speaker_pattern (remove_timecode (strip p)))
        as [m|] eqn:Esp.
      * now apply (speaker_rows_well_formed p m).
      * apply plain_rows_well_formed.
Qed.

(** X9. Every row of the table is well formed: a full-width row holds one
    run; a two-column row holds exactly one content run, whose text is not
    empty, and a speaker cell that is empty or holds one red run of capital
    letters.  In particular the table has no empty row. *)
Theorem table_rows_well_formed (sep : Z) (paras : list str) :
  exists st,
    process_paragraphs sep loop_init paras = ret st /\
    Forall well_formed_row (out_table st).
Proof.
  assert (H : forall ps st,
             Forall well_formed_row (out_table st) ->
             exists st', process_paragraphs sep st ps = ret st' /\
                         Forall well_formed_row (out_table st')).
  { induction ps as [|p ps IH]; intros st Hwf; cbn [process_paragraphs];
      [eauto|].
    destruct (process_paragraph_well_formed sep st p Hwf) as (st1 & -> & H1).
    now apply IH. }
  apply H. constructor.
Qed.

(** ** The rows of a speaker line *)

Lemma speaker_line_table (p m : str) :
  re_match speaker_pattern (remove_timecode (strip p)) = Some m ->
  exists name first rest,
    capitals name /\
    (hd [] (split (remove_timecode (strip p))) = name \/
     hd [] (split (remove_timecode (strip p))) = name ++ [colon]) /\
    Forall is_word (tl (split (remove_timecode (strip p)))) /\
    split_text_into_lines
      (join [space] (tl (split (remove_timecode (strip p)))))
      MAX_LINE_LENGTH = first :: rest /\
    speaker_rows (speaker_of (remove_timecode (strip p)))
                 (content_of (remove_timecode (strip p)))
    = Cells [Run name false red] [Run first false None]
        :: map content_row rest.
Proof.
  intros Hm.
  destruct (speaker_line_rows p m Hm)
    as (name & ws & first & rest & Hn & _ & Hsplit & _ & Hlines & Hrows).
  pose proof (split_words (remove_timecode (strip p))) as Hall.
  exists name, first, rest. split; [exact Hn|].
  destruct Hsplit as [E|E]; rewrite E in *; simpl hd; simpl tl;
    inversion Hall; subst; auto.
Qed.

Lemma content_text_rows (ls : list str) :
  map content_text (map content_row ls) = ls.
Proof. induction ls; simpl; congruence. Qed.

Lemma speaker_text_rows (ls : list str) :
  map speaker_text (map content_row ls) = repeat [] (length ls).
Proof. induction ls; simpl; [reflexivity | now f_equal]. Qed.

(** X10. A speaker line puts the speaker's name, without its colon, into the
    speaker cell of its first row only, and the words of its content cells,
    read row by row, are exactly the words that follow the speaker token:
    none is lost, repeated or moved. *)
Theorem speaker_line_keeps_words (sep : Z) (st : loop_state) (p m : str) :
  skip_pages st = false ->
  is_segment_marker (strip p) = false ->
  re_match speaker_pattern (remove_timecode (strip p)) = Some m ->
  exists name rows,
    process_paragraph sep st p
    = ret (LoopState (segment_count st) false (out_table st ++ rows)) /\
    capitals name /\
    (hd [] (split (remove_timecode (strip p))) = name \/
     hd [] (split (remove_timecode (strip p))) = name ++ [colon]) /\
    map speaker_text rows = name :: repeat [] (Nat.pred (length rows)) /\
    concat (map (fun r => split (content_text r)) rows)
    = tl (split (remove_timecode (strip p))).
Proof.
  intros Hs Hmk Hm.
  destruct (speaker_line_table p m Hm)
    as (name & first & rest & Hn & Hhd & Hws & Hlines & Hrows).
  exists name, (Cells [Run name false red] [Run first false None]
                  :: map content_row rest).
  split.
  - rewrite process_other by assumption. unfold classify.
    rewrite Hmk, Hm, Hrows. reflexivity.
  - split; [exact Hn|]. split; [exact Hhd|]. split.
    + cbn [map speaker_text length Nat.pred].
      now rewrite speaker_text_rows, length_map.
    + rewrite <- (map_map content_text split).
      assert (E : map content_text
                    (Cells [Run name false red] [Run first false None]
                       :: map content_row rest) = first :: rest).
      { cbn [map]. now rewrite content_text_rows. }
      rewrite E, <- Hlines.
      set (ws := tl (split (remove_timecode (strip p)))) in *.
      unfold split_text_into_lines.
      destruct (wrap_fold_words MAX_LINE_LENGTH (split (join [space] ws))
                  wrap_init (split_words _) (Forall_nil _)) as [Hcur Heq].
      rewrite flush_words by exact Hcur. rewrite Heq. simpl.
      now apply split_join.
Qed.

Lemma speaker_line_keeps_words_witness :
  exists name rows,
    process_paragraph 104 (LoopState 1 false []) $"0:02 ANNA: good evening"
    = ret (LoopState 1 false ([] ++ rows)) /\
    capitals name /\
    map speaker_text rows = name :: repeat [] (Nat.pred (length rows)) /\
    concat (map (fun r => split (content_text r)) rows)
    = [$"good"; $"evening"].
Proof.
  destruct (speaker_line_keeps_words 104 (LoopState 1 false [])
              $"0:02 ANNA: good evening" $"ANNA: "
              eq_refl eq_refl eq_refl)
    as (name & rows & Hrun & Hn & _ & Hsp & Hwords).
  exists name, rows. repeat split; try assumption; apply Hn.
Defined.

(** X11. Each content line of a speaker line is at most 90 characters long,
    unless it is a single word of the line that is itself longer. *)
Theorem speaker_line_rows_fit (sep : Z) (st : loop_state) (p m : str) :
  skip_pages st = false ->
  is_segment_marker (strip p) = false ->
  re_match speaker_pattern (remove_timecode (strip p)) = Some m ->
  exists rows,
    process_paragraph sep st p
    = ret (LoopState (segment_count st) false (out_table st ++ rows)) /\
    Forall (fun r =>
              len (content_text r) <= 90 \/
              (In (content_text r) (tl (split (remove_timecode (strip p))))
               /\ 90 < len (content_text r)))
           rows.
Proof.
  intros Hs Hmk Hm.
  destruct (speaker_line_table p m Hm)
    as (name & first & rest & Hn & Hhd & Hws & Hlines & Hrows).
  exists (Cells [Run name false red] [Run first false None]
            :: map content_row rest).
  split.
  - rewrite process_other by assumption. unfold classify.
    rewrite Hmk, Hm, Hrows. reflexivity.
  - set (ws := tl (split (remove_timecode (strip p)))) in *.
    assert (Hfit : Forall (fits_or_single MAX_LINE_LENGTH ws) (first :: rest)).
    { rewrite <- Hlines. unfold split_text_into_lines.
      apply flush_any. rewrite (split_join ws Hws).
      apply wrap_fold_any; [assumption | apply incl_refl|].
      constructor; simpl; try constructor. reflexivity. }
    inversion Hfit as [|? ? Hfirst Hrest]; subst.
    constructor; [exact Hfirst|].
    apply Forall_map. eapply Forall_impl; [|exact Hrest].
    intros l Hl. exact Hl.
Qed.

Lemma speaker_line_rows_fit_witness :
  exists rows,
    process_paragraph 104 (LoopState 1 false []) $"ANNA: good evening"
    = ret (LoopState 1 false ([] ++ rows)) /\
    Forall (fun r => len (content_text r) <= 90 \/
                     (In (content_text r) [$"good"; $"evening"]
                      /\ 90 < len (content_text r)))
           rows.
Proof.
  exact (speaker_line_rows_fit 104 (LoopState 1 false [])
           $"ANNA: good evening" $"ANNA: " eq_refl eq_refl eq_refl).
Defined.

(** ** The header row *)

Lemma len_times (c : ascii) (n : Z) : 0 <= n -> len (times c n) = n.
Proof. intros H. unfold len, times. rewrite repeat_length. lia. Qed.

Lemma timecode_len (tc : str) :
  is_timecode tc = true -> 4 <= len tc <= 8.
Proof.
  intros H. unfold len.
  destruct (timecode_lengths tc H) as [L|[L|[L|L]]]; rewrite L; lia.
Qed.

(** X12. The spacing makes up for the length of the timecode: for a
    separator length that is not negative and up to 99 segments, the header
    row is 27 characters longer than the row of dashes, whichever timecode
    it shows. *)
Theorem header_width (sep : Z) (tc : str) (n : Z) :
  is_timecode tc = true -> 0 <= sep -> 0 <= n <= 99 ->
  len (times dash sep) = sep /\
  len (segment_text sep tc n) = sep + 27.
Proof.
  intros Htc Hsep Hn. pose proof (timecode_len tc Htc) as Hlen.
  split; [now apply len_times|].
  unfold segment_text. rewrite !len_app, len_times by lia.
  destruct (format_02d_two_digits n Hn) as (a & b & _ & _ & _ & ->).
  change (len [space]) with 1. change (len [digit_char a; digit_char b]) with 2.
  lia.
Qed.

Lemma header_width_witness :
  is_timecode $"1:02:03" = true /\ 0 <= 104 /\ 0 <= 7 <= 99 /\
  len (times dash 104) = 104 /\
  len (segment_text 104 $"1:02:03" 7) = 104 + 27.
Proof.
  assert (H1 : is_timecode $"1:02:03" = true) by reflexivity.
  assert (H2 : 0 <= 104) by lia.
  assert (H3 : 0 <= 7 <= 99) by lia.
  split; [exact H1|]. split; [exact H2|]. split; [exact H3|].
  exact (header_width 104 $"1:02:03" 7 H1 H2 H3).
Defined.

(** ** The first timecode of a line *)

Lemma search_from_first (r : regex) (s : str) : forall prev m,
  search_from r prev s = Some m ->
  exists pre rest,
    s = pre ++ m ++ rest /\
    match_here r (after prev pre) (m ++ rest) = Some m /\
    forall pre1 s1,
      s = pre1 ++ s1 -> (length pre1 < length pre)%nat ->
      match_here r (after prev pre1) s1 = None.
Proof.
  induction s as [|c s IH]; intros prev m H; simpl in H.
  - destruct (match_here r prev []) as [m'|] eqn:E; [|discriminate].
    injection H as <-. destruct (match_here_sound _ _ _ _ E) as (rest & Es & _).
    exists [], rest. split; [exact Es|]. split; [now rewrite <- Es|].
    intros pre1 s1 _ Hlt. simpl in Hlt. lia.
  - destruct (match_here r prev (c :: s)) as [m'|] eqn:E.
    + injection H as <-.
      destruct (match_here_sound _ _ _ _ E) as (rest & Es & _).
      exists [], rest. split; [exact Es|]. split; [now rewrite <- Es|].
      intros pre1 s1 _ Hlt. simpl in Hlt. lia.
    + destruct (IH (Some c) m H) as (pre & rest & Es & Hm & Hmin).
      exists (c :: pre), rest. split; [simpl; now rewrite Es|].
      split; [exact Hm|].
      intros pre1 s1 E1 Hlt. destruct pre1 as [|c1 pre1].
      * simpl in E1. subst s1. exact E.
      * simpl in E1. injection E1 as <- E1. simpl in Hlt.
        apply Hmin; [exact E1 | lia].
Qed.

Ltac run_timecode_at Hprev Hpost :=
  unfold match_here, timecode_regex, digit, chr;
  cbn [rep upto exec app];
  rewrite boundary_left by (now apply isdigit_isword);
  rewrite Hprev; cbn [negb];
  repeat match goal with
    | H : isdigit ?x = true |- context [isdigit ?x] => rewrite H
    end;
  change (isdigit colon) with false;
  change (is_char colon colon) with true;
  cbv iota;
  repeat match goal with
    | H : isdigit ?x = true |- context [at_boundary (Some ?x) _] =>
        rewrite (boundary_right x) by (now apply isdigit_isword)
    end;
  rewrite Hpost; cbn [negb].

Lemma match_here_timecode_long (prev : option ascii) (tc post : str) :
  isword_opt prev = false ->
  is_timecode tc = true -> (7 <= length tc)%nat ->
  isword_opt (hd_error post) = false ->
  match_here timecode_regex prev (tc ++ post) = Some tc.
Proof.
  intros Hprev Htc Hlen Hpost.
  destruct tc as [|a [|b [|c [|d [|e [|f [|g [|h [|i m]]]]]]]]];
    try discriminate Htc; simpl in Hlen; try lia;
    cbn [is_timecode] in Htc; split_andb; run_timecode_at Hprev Hpost;
    f_equal.
  - apply (firstn_app_exact [a; colon; c; d; colon; f; g] post).
  - apply (firstn_app_exact [a; b; colon; d; e; colon; g; h] post).
Qed.

Lemma match_here_timecode_longest
  (prev : option ascii) (tc rest tc' post' : str) :
  match_here timecode_regex prev (tc ++ rest) = Some tc ->
  tc ++ rest = tc' ++ post' -> is_timecode tc' = true ->
  isword_opt prev = false -> isword_opt (hd_error post') = false ->
  (length tc' <= length tc)%nat.
Proof.
  intros Hm E Htc' Hprev Hpost'.
  destruct (Nat.le_gt_cases 7 (length tc')) as [Hlong|Hshort].
  - rewrite E in Hm.
    rewrite (match_here_timecode_long prev tc' post' Hprev Htc' Hlong Hpost')
      in Hm.
    injection Hm as <-. lia.
  - destruct (match_here_sound _ _ _ _ Hm) as (rest0 & _ & Hacc).
    apply timecode_accepts_form in Hacc. destruct Hacc as (Htc & _ & _).
    destruct (timecode_lengths tc Htc) as [L|[L|[L|L]]];
      destruct (timecode_lengths tc' Htc') as [L'|[L'|[L'|L']]]; try lia.
    exfalso.
    destruct tc as [|a [|b [|c [|d [|e m]]]]]; try discriminate L.
    destruct tc' as [|a' [|b' [|c' [|d' [|e' [|f' m']]]]]];
      try discriminate L'.
    cbn [is_timecode] in Htc, Htc'. split_andb.
    cbn [app] in E. injection E as E1 E2.
    match goal with
    | H : isdigit colon = true |- _ => discriminate H
    | H : isdigit ?x = true |- _ => subst x; discriminate H
    end.
Qed.

Lemma app_same_length (a b c d : str) :
  a ++ b = c ++ d -> length a = length c -> a = c /\ b = d.
Proof.
  revert c. induction a as [|x a IH]; intros [|y c] E L;
    try discriminate L.
  - now split.
  - simpl in E. injection E as -> E. injection L as L.
    destruct (IH c E L) as [-> ->]. now split.
Qed.

(** X13. The timecode shown in a segment header is the first timecode token
    of the line: no timecode token starts further left, and none that
    starts at the same place is longer. *)
Theorem header_timecode_is_first (text tc : str) :
  re_search segment_marker_pattern text = Some tc ->
  exists pre post,
    text = pre ++ tc ++ post /\
    is_timecode tc = true /\ delimited pre post /\
    forall pre' tc' post',
      text = pre' ++ tc' ++ post' ->
      is_timecode tc' = true -> delimited pre' post' ->
      (length pre < length pre')%nat \/
      (pre' = pre /\ (length tc' <= length tc)%nat).
Proof.
  intros H. unfold re_search, segment_marker_pattern in H.
  destruct (search_from_first _ _ _ _ H) as (pre & post & E & Hm & Hmin).
  destruct (match_here_sound _ _ _ _ Hm) as (post0 & _ & Hacc).
  destruct (timecode_accepts_form _ _ _ Hacc) as (Htc & Hl & _).
  assert (Hr : isword_opt (hd_error post) = false).
  { destruct (match_here_sound _ _ _ _ Hm) as (post1 & E1 & Hacc1).
    apply app_inv_head in E1. subst post1.
    now destruct (timecode_accepts_form _ _ _ Hacc1) as (_ & _ & Hr). }
  exists pre, post. split; [exact E|]. split; [exact Htc|].
  split; [now split|].
  intros pre' tc' post' E' Htc' [Hl' Hr'].
  destruct (Nat.lt_trichotomy (length pre') (length pre)) as [Hlt|[Heq|Hgt]].
  - exfalso.
    pose proof (timecode_form_accepted (after None pre') tc' post'
                  Htc' Hl' Hr') as Hacc'.
    destruct (match_here_complete _ _ _ _ Hacc') as [m' Hm'].
    rewrite (Hmin pre' (tc' ++ post') E' Hlt) in Hm'. discriminate.
  - right. rewrite E in E'.
    destruct (app_same_length _ _ _ _ E' (eq_sym Heq)) as [<- E2].
    split; [reflexivity|].
    now apply (match_here_timecode_longest (after None pre) tc post tc' post').
  - now left.
Qed.

Lemma header_timecode_is_first_witness :
  exists pre post,
    $"at 1:02:03, not 4:05 ----------" = pre ++ $"1:02:03" ++ post /\
    forall pre' tc' post',
      $"at 1:02:03, not 4:05 ----------" = pre' ++ tc' ++ post' ->
      is_timecode tc' = true -> delimited pre' post' ->
      (length pre < length pre')%nat \/
      (pre' = pre /\ (length tc' <= length $"1:02:03")%nat).
Proof.
  destruct (header_timecode_is_first $"at 1:02:03, not 4:05 ----------"
              $"1:02:03" eq_refl)
    as (pre & post & E & _ & _ & Hfirst).
  exists pre, post. split; [exact E | exact Hfirst].
Defined.

(** ** The output path *)

(** X14. Completing the output path is idempotent, and it leaves a path
    unchanged exactly when the path already ends with [.docx]. *)
Theorem docx_path_idempotent (output_file : str) :
  docx_path (docx_path output_file) = docx_path output_file /\
  (docx_path output_file = output_file <->
   endswith output_file $".docx" = true).
Proof.
  split.
  - unfold docx_path at 1. now rewrite docx_path_ends.
  - unfold docx_path. destruct (endswith output_file $".docx") eqn:E.
    + split; reflexivity.
    + split; [|discriminate]. intros H.
      apply (f_equal (@length ascii)) in H. rewrite length_app in H.
      simpl in H. lia.
Qed.

(** ** The script *)

Section MainFacts.
Variable world : Type.
Variable path_exists : world -> str -> bool.
Variable Document : world -> str -> result (list str).
Variable save : world -> str -> table -> result unit * world.
Variable sep : Z.

Lemma main_prints (w : world) (argv : list str) (out : str) :
  fst (main world path_exists Document save sep w argv) = ret out ->
  out = $"output.docx".
Proof.
  unfold main. destruct (nth_error argv 1) as [input|]; [|discriminate].
  destruct (path_exists w input) eqn:Hex.
  - destruct (Document w input) as [e|paras] eqn:Hdoc.
    + rewrite (process_docx_unreadable world path_exists Document save sep
                 w input $"output.docx" e Hex Hdoc). discriminate.
    + destruct (process_docx_read world path_exists Document save sep
                  w input $"output.docx" paras Hex Hdoc) as (st & _ & ->).
      destruct (fst (save w (docx_path $"output.docx") (out_table st)));
        [discriminate|].
      simpl. intros H. now injection H as <-.
  - rewrite (process_docx_missing world path_exists Document save sep
               w input $"output.docx" Hex). discriminate.
Qed.

(** X15. The script never prints its error message: whenever it prints
    at all, the line is the fixed output path [output.docx], and it does so
    whenever the input named by the first argument exists, loads and the
    save succeeds.  Called without an argument it stops with [IndexError]
    before anything is read or saved. *)
Theorem script_prints_output_path (w : world) (argv : list str) :
  (forall out,
     fst (main world path_exists Document save sep w argv) = ret out ->
     out = $"output.docx" /\ out <> could_not_process) /\
  ((length argv < 2)%nat ->
   main world path_exists Document save sep w argv = (raise IndexError, w)) /\
  (forall input paras,
     nth_error argv 1 = Some input ->
     path_exists w input = true -> Document w input = inr paras ->
     (forall t, fst (save w $"output.docx" t) = ret tt) ->
     fst (main world path_exists Document save sep w argv)
     = ret $"output.docx").
Proof.
  split; [|split].
  - intros out H. apply main_prints in H. subst out.
    split; [reflexivity | discriminate].
  - intros Hlen. unfold main.
    destruct (nth_error argv 1) as [x|] eqn:E; [|reflexivity].
    assert (Hsome : nth_error argv 1 <> None) by congruence.
    apply nth_error_Some in Hsome. lia.
  - intros input paras Harg Hex Hdoc Hsave. unfold main. rewrite Harg.
    destruct (process_docx_read world path_exists Document save sep
                w input $"output.docx" paras Hex Hdoc) as (st & _ & ->).
    change (docx_path $"output.docx") with $"output.docx".
    rewrite Hsave. reflexivity.
Qed.
End MainFacts.

Lemma script_prints_output_path_witness :
  fst (main disk disk_exists disk_Document easy_save 104 demo_disk
         [$"main.py"; $"in.docx"])
  = ret $"output.docx" /\
  main disk disk_exists disk_Document easy_save 104 demo_disk [$"main.py"]
  = (raise IndexError, demo_disk).
Proof.
  split.
  - apply (proj2 (proj2 (script_prints_output_path disk disk_exists
                           disk_Document easy_save 104 demo_disk
                           [$"main.py"; $"in.docx"]))
             $"in.docx"
             [$"Title page"; $"0:00 ----------"; $"HOST: welcome"]
             eq_refl eq_refl eq_refl (fun t => eq_refl)).
  - apply (proj1 (proj2 (script_prints_output_path disk disk_exists
                           disk_Document easy_save 104 demo_disk
                           [$"main.py"]))).
    simpl. lia.
Defined.

(** ** A text that fits *)

Lemma join_prefix_shorter (a b : list str) :
  len (join [space] a) <= len (join [space] (a ++ b)).
Proof.
  destruct a as [|x a]; [simpl; apply len_nonneg|].
  destruct b as [|y b]; [rewrite app_nil_r; lia|].
  rewrite join_app by discriminate. rewrite !len_app.
  pose proof (len_nonneg (join [space] (y :: b))).
  pose proof (len_nonneg [space]). lia.
Qed.

Lemma wrap_fold_fits (m : Z) (ws : list str) : forall cur n,
  Forall is_word cur -> Forall is_word ws ->
  n = len (join [space] cur) ->
  len (join [space] (cur ++ ws)) <= m ->
  fold_left (wrap_word m) ws (WrapState [] cur n)
  = WrapState [] (cur ++ ws) (len (join [space] (cur ++ ws))).
Proof.
  induction ws as [|w ws IH]; intros cur n Hcur Hws Hn Hfit.
  - simpl. rewrite app_nil_r. now subst n.
  - apply Forall_cons_iff in Hws. destruct Hws as [Hw Hws'].
    pose proof (joined_length_snoc cur w n Hcur Hn) as Hstep.
    pose proof (join_prefix_shorter (cur ++ [w]) ws) as Hmono.
    rewrite <- app_assoc in Hmono. simpl app in Hmono.
    cbn [fold_left]. unfold wrap_word at 2. cbn [current_length].
    assert (Htest : (n + len w + (if 0 <? n then 1 else 0) <=? m) = true)
      by (apply Z.leb_le; lia).
    rewrite Htest. cbn [lines current_line].
    rewrite (IH (cur ++ [w])).
    + now rewrite <- app_assoc.
    + apply Forall_app. split; [assumption | now constructor].
    + assumption.
    + exact Hstep.
    + now rewrite <- app_assoc.
Qed.

(** X16. A text with at least one word whose words, joined by single
    spaces, fit in [max_length] comes back as exactly one line: those
    words joined by single spaces. *)
Theorem short_text_is_one_line (text : str) (max_length : Z) :
  split text <> [] ->
  len (join [space] (split text)) <= max_length ->
  split_text_into_lines text max_length = [join [space] (split text)].
Proof.
  intros Hne Hfit. unfold split_text_into_lines, wrap_init.
  rewrite (wrap_fold_fits max_length (split text) [] 0);
    try (constructor || apply split_words || reflexivity || assumption).
  cbn [lines current_line app]. destruct (split text); [congruence|].
  reflexivity.
Qed.

Lemma short_text_is_one_line_witness :
  split $"  good   evening " <> [] /\
  len (join [space] (split $"  good   evening ")) <= 12 /\
  split_text_into_lines $"  good   evening " 12 = [$"good evening"].
Proof.
  assert (H1 : split $"  good   evening " <> []) by discriminate.
  assert (H2 : len (join [space] (split $"  good   evening ")) <= 12)
    by (vm_compute; discriminate).
  split; [exact H1|]. split; [exact H2|].
  exact (short_text_is_one_line $"  good   evening " 12 H1 H2).
Defined.
